(** * Verification of the whiteboard service ([app.py])

    A shallow embedding of the data-directory swap ([restore_data_from_zip]),
    the document store routes ([save_excalidraw_data], [add_instance],
    [seed_nodes]), the pull orchestrator ([start_pull], [_run_pull_task]) and
    the Socket.IO handlers ([on_join], [on_disconnect], [on_update_scene],
    [on_cursor_move]), with the properties the specification states about
    them. *)

From Stdlib Require Import Ascii.
From stdpp Require Import gmap strings list fin_maps pretty.

#[local] Set Warnings "-register-all,-clear-no-such-hyp".

(** ** JSON values

    [request.json], the [data] column of both tables and the Socket.IO
    payloads are JSON values; a Python [dict] with string keys is a finite
    map. Integers stand for the numbers: no function here computes with
    them. *)

Inductive json : Type :=
  | JNull
  | JBool (b : bool)
  | JNum (z : Z)
  | JStr (s : string)
  | JArr (l : list json)
  | JObj (o : gmap string json).

(** ** The file system seen by [restore_data_from_zip] *)

Module Fs.

(** A directory entry: a regular file with its bytes, or a directory with its
    entries by name. *)
Inductive node : Type :=
  | File (content : string)
  | Dir (entries : gmap string node).

(** The three paths the function touches: [DATA_DIR] (the data root),
    [backup_dir] ([basedir/data_temp_backup]) and [extract_dir] (the
    directory [tempfile.mkdtemp] returns). *)
Inductive place : Type := DATA_DIR | backup_dir | extract_dir.

#[global] Instance place_eq_dec : EqDecision place.
Proof. solve_decision. Defined.

(** What is at each path: nothing ([None]), a file or a directory. *)
Record fs : Type := mkFs {
  at_data : option node;
  at_backup : option node;
  at_extract : option node;
}.

Definition stat (p : place) (s : fs) : option node :=
  match p with
  | DATA_DIR => at_data s
  | backup_dir => at_backup s
  | extract_dir => at_extract s
  end.

Definition write (p : place) (n : option node) (s : fs) : fs :=
  match p with
  | DATA_DIR => mkFs n (at_backup s) (at_extract s)
  | backup_dir => mkFs (at_data s) n (at_extract s)
  | extract_dir => mkFs (at_data s) (at_backup s) n
  end.

(** The entries of [p] when it is a directory. *)
Definition dir_of (p : place) (s : fs) : option (gmap string node) :=
  match stat p s with
  | Some (Dir d) => Some d
  | _ => None
  end.

(** Exceptions. [EnvFault] is a failure of the environment at the named call
    (I/O error, permission, device busy); the others are what the library
    raises on the state it finds. *)
Inductive exn : Type :=
  | EnvFault (site : string)
  | FileNotFoundError
  | FileExistsError
  | NotADirectoryError
  | IsADirectoryError
  | DestinationExists
  | BadZipFile.

(** The world: the file system and the faults still to come. Every call that
    can raise for a reason of the environment reads the next entry of
    [faults]: [true] makes it raise and leave the file system as it was; an
    exhausted list means no further fault. *)
Record world : Type := mkWorld {
  files : fs;
  faults : list bool;
}.

Definition M (A : Type) : Type := world → (exn + A) * world.

Definition ret {A} (a : A) : M A := λ w, (inr a, w).

Definition raise {A} (e : exn) : M A := λ w, (inl e, w).

Definition bind {A B} (m : M A) (k : A → M B) : M B :=
  λ w, match m w with
       | (inl e, w') => (inl e, w')
       | (inr a, w') => k a w'
       end.

#[global] Instance M_ret : MRet M := @ret.
#[global] Instance M_bind : MBind M := λ A B k m, bind m k.

(** [try: ... except Exception as e]: the exception becomes a value. *)
Definition try_except {A} (m : M A) : M (exn + A) :=
  λ w, let '(r, w') := m w in (inr r, w').

(** [try: body finally: cleanup]: [cleanup] runs on every exit of [body]; an
    exception it raises replaces the outcome of [body]. *)
Definition try_finally {A} (body : M A) (cleanup : M unit) : M A :=
  λ w, let '(r, w1) := body w in
       match cleanup w1 with
       | (inl e, w2) => (inl e, w2)
       | (inr _, w2) => (r, w2)
       end.

(** [for item in items: body(item)] *)
Fixpoint for_each {A} (items : list A) (body : A → M unit) : M unit :=
  match items with
  | [] => mret ()
  | item :: rest => body item ;; for_each rest body
  end.

(** [if b: body] *)
Definition when (b : bool) (body : M unit) : M unit :=
  if b then body else ret ().

Definition get_fs : M fs := λ w, (inr (files w), w).
Definition put_fs (s : fs) : M unit := λ w, (inr (), mkWorld s (faults w)).

(** The point where a call may fail for a reason of the environment. *)
Definition fault_point (site : string) : M unit :=
  λ w, match faults w with
       | true :: rest => (inl (EnvFault site), mkWorld (files w) rest)
       | false :: rest => (inr (), mkWorld (files w) rest)
       | [] => (inr (), w)
       end.

(** *** The library calls *)

(** [os.path.exists]: never raises. *)
Definition path_exists (p : place) : M bool :=
  s ← get_fs; mret (bool_decide (is_Some (stat p s))).

(** [tempfile.mkdtemp(prefix='data_new_')]: a fresh, empty directory. *)
Definition mkdtemp : M unit :=
  fault_point "mkdtemp" ;;
  s ← get_fs; put_fs (write extract_dir (Some (Dir ∅)) s).

(** [os.makedirs(p)] (without [exist_ok]). *)
Definition makedirs (p : place) : M unit :=
  fault_point "makedirs" ;;
  s ← get_fs;
  match stat p s with
  | Some _ => raise FileExistsError
  | None => put_fs (write p (Some (Dir ∅)) s)
  end.

(** [shutil.rmtree(p)] *)
Definition rmtree (p : place) : M unit :=
  fault_point "rmtree" ;;
  s ← get_fs;
  match stat p s with
  | Some (Dir _) => put_fs (write p None s)
  | Some (File _) => raise NotADirectoryError
  | None => raise FileNotFoundError
  end.

(** [os.listdir(p)]: the names of the entries, in the order the file system
    gives them. *)
Definition listdir (p : place) : M (list string) :=
  fault_point "listdir" ;;
  s ← get_fs;
  match stat p s with
  | Some (Dir d) => mret (map_to_list d).*1
  | Some (File _) => raise NotADirectoryError
  | None => raise FileNotFoundError
  end.

(** [shutil.move(os.path.join(src, item), dst)]: into [dst] under the same
    name when [dst] is a directory (an error when that name is taken there);
    otherwise a rename of the entry to the path [dst] itself. *)
Definition move (src : place) (item : string) (dst : place) : M unit :=
  fault_point "move" ;;
  s ← get_fs;
  match dir_of src s with
  | None => raise FileNotFoundError
  | Some sd =>
    match sd !! item with
    | None => raise FileNotFoundError
    | Some n =>
      match stat dst s with
      | Some (Dir dd) =>
        match dd !! item with
        | Some _ => raise DestinationExists
        | None =>
          put_fs (write dst (Some (Dir (<[item:=n]> dd)))
                    (write src (Some (Dir (delete item sd))) s))
        end
      | Some (File _) =>
        match n with
        | File _ => put_fs (write dst (Some n) (write src (Some (Dir (delete item sd))) s))
        | Dir _ => raise NotADirectoryError
        end
      | None => put_fs (write dst (Some n) (write src (Some (Dir (delete item sd))) s))
      end
    end
  end.

(** [os.path.isdir(os.path.join(p, item))]: never raises. *)
Definition isdir (p : place) (item : string) : M bool :=
  s ← get_fs;
  mret match dir_of p s with
       | Some d => match d !! item with Some (Dir _) => true | _ => false end
       | None => false
       end.

(** [shutil.rmtree(os.path.join(p, item))] *)
Definition rmtree_item (p : place) (item : string) : M unit :=
  fault_point "rmtree" ;;
  s ← get_fs;
  match dir_of p s with
  | None => raise FileNotFoundError
  | Some d =>
    match d !! item with
    | Some (Dir _) => put_fs (write p (Some (Dir (delete item d))) s)
    | Some (File _) => raise NotADirectoryError
    | None => raise FileNotFoundError
    end
  end.

(** [os.remove(os.path.join(p, item))] *)
Definition os_remove (p : place) (item : string) : M unit :=
  fault_point "remove" ;;
  s ← get_fs;
  match dir_of p s with
  | None => raise FileNotFoundError
  | Some d =>
    match d !! item with
    | Some (File _) => put_fs (write p (Some (Dir (delete item d))) s)
    | Some (Dir _) => raise IsADirectoryError
    | None => raise FileNotFoundError
    end
  end.

(** [db_handle.session.remove()] and [db_handle.engine.dispose()]: no effect
    on the files. *)
Definition session_remove : M unit := fault_point "session.remove".
Definition engine_dispose : M unit := fault_point "engine.dispose".

(** An uploaded or downloaded archive, as [zipfile] reads it: its top-level
    entries with their subtrees, and whether reading it fails.
    [corrupt_after = Some k]: [ZipFile(...)]/[extractall] raises once [k]
    entries have been written ([k = 0]: not a zip file at all). *)
Record archive : Type := mkArchive {
  content : gmap string node;
  corrupt_after : option nat;
}.

(** [with zipfile.ZipFile(zip, 'r') as zip_ref: zip_ref.extractall(p)] *)
Definition extractall (zip : archive) (p : place) : M unit :=
  s ← get_fs;
  match dir_of p s with
  | None => raise FileNotFoundError
  | Some d =>
    match corrupt_after zip with
    | Some k =>
      put_fs (write p (Some (Dir (list_to_map (take k (map_to_list (content zip))) ∪ d))) s) ;;
      raise BadZipFile
    | None => put_fs (write p (Some (Dir (content zip ∪ d))) s)
    end
  end.

(** *** [restore_data_from_zip] *)

(** The second component of the returned pair; the exceptions stand for
    their text in the message. *)
Inductive message : Type :=
  | ExtractFailed (e : exn)
  | Restored
  | SwapFailed (e : exn)
  | Critical (e restore_e : exn).

(** Steps 3a to 3c: the connections to the store are closed and what the
    data root holds goes to a new, empty backup directory. *)
Definition move_to_backup (db_handle : bool) : M unit :=
  when db_handle (session_remove ;; engine_dispose) ;;
  (b ← path_exists backup_dir; when b (rmtree backup_dir)) ;;
  makedirs backup_dir ;;
  current_data_files ← listdir DATA_DIR;
  for_each current_data_files (λ item : string, move DATA_DIR item backup_dir).

(** Steps 3d and 3e: what was extracted goes to the data root, and the
    backup is removed. *)
Definition move_from_extracted : M unit :=
  items ← listdir extract_dir;
  for_each items (λ item : string, move extract_dir item DATA_DIR) ;;
  (b ← path_exists backup_dir; when b (rmtree backup_dir)).

(** Steps 3a to 3e, the body of the second [try]. *)
Definition swap_contents (db_handle : bool) : M unit :=
  move_to_backup db_handle ;; move_from_extracted.

(** Steps 4a and 4b, the body of the [try] inside the handler. *)
Definition restore_backup : M unit :=
  items ← listdir DATA_DIR;
  for_each items (λ item : string,
    b ← isdir DATA_DIR item;
    if b : bool then rmtree_item DATA_DIR item else os_remove DATA_DIR item) ;;
  b ← path_exists backup_dir;
  when b
    (items ← listdir backup_dir;
     for_each items (λ item : string, move backup_dir item DATA_DIR) ;;
     rmtree backup_dir).

(** Steps 5 and 6, the [finally] clause. *)
Definition final_cleanup : M unit :=
  (b ← path_exists extract_dir; when b (rmtree extract_dir)) ;;
  (b ← path_exists backup_dir; when b (rmtree backup_dir)).

(** The second [try] statement: the swap, its [except] handler with the
    attempt to put the backup back, and the [finally] clause. *)
Definition swap_or_roll_back (db_handle : bool) : M (bool * message) :=
  try_finally
    (swapped ← try_except (swap_contents db_handle);
     match swapped with
     | inr _ => mret (true, Restored)
     | inl e =>
       restored ← try_except restore_backup;
       match restored with
       | inl restore_e => mret (false, Critical e restore_e)
       | inr _ => mret (false, SwapFailed e)
       end
     end)
    final_cleanup.

Definition restore_data_from_zip (zip_path_or_file : archive) (db_handle : bool)
    : M (bool * message) :=
  mkdtemp ;;
  extracted ← try_except (extractall zip_path_or_file extract_dir);
  match extracted with
  | inl e =>
    (b ← path_exists extract_dir; when b (rmtree extract_dir)) ;;
    mret (false, ExtractFailed e)
  | inr _ => swap_or_roll_back db_handle
  end.

(** A call of [restore_data_from_zip] on a data root holding [data], with
    [backup] at the backup path (a leftover of an earlier run, or nothing)
    and the faults [fl] to come. The path [mkdtemp] returns is new. *)
Definition run_restore (zip : archive) (db_handle : bool)
    (data : gmap string node) (backup : option node) (fl : list bool)
    : (exn + bool * message) * world :=
  restore_data_from_zip zip db_handle
    (mkWorld (mkFs (Some (Dir data)) backup None) fl).

End Fs.
(** ** The document store: drawings and peer instances *)

Module Store.

(** [class Instance(db.Model)] and [class Excalidraw(db.Model)]: a row is an
    [id] (a [uuid4]) and the JSON [data] column. The drawings are looked up
    by [id] only; the instances are also listed ([Instance.query.all()]), in
    the order of insertion. *)
Record Instance : Type := mkInstance {
  id : string;
  data : gmap string json;
}.

Record database : Type := mkDb {
  Excalidraw : gmap string (gmap string json);
  instances : list Instance;
}.

(** [Instance.url]: [self.data.get('url', '')] *)
Definition Instance_url (inst : Instance) : json :=
  default (JStr "") (data inst !! "url").

(** [Instance.name]: [self.data.get('name', 'Unknown')] *)
Definition Instance_name (inst : Instance) : json :=
  default (JStr "Unknown") (data inst !! "name").

(** A call of the store inside a [try] block that raises (the handler rolls
    the session back): the query, or the commit. *)
Inductive db_call : Type := Query | Commit.

(** *** Python on JSON values *)

(** [bool(j)] *)
Definition truthy (j : json) : bool :=
  match j with
  | JNull => false
  | JBool b => b
  | JNum z => negb (z =? 0)%Z
  | JStr s => negb (String.eqb s "")
  | JArr l => match l with [] => false | _ => true end
  | JObj o => negb (size o =? 0)
  end.

(** [key in s] for two strings: [key] occurs in [s]. *)
Fixpoint occurs_in (key s : string) : bool :=
  String.prefix key s ||
  match s with
  | EmptyString => false
  | String _ rest => occurs_in key rest
  end.

Definition is_str (key : string) (j : json) : bool :=
  match j with JStr s => String.eqb s key | _ => false end.

(** [key in j]; [None] is a [TypeError] (a number, a boolean, [None]). *)
Definition py_in (key : string) (j : json) : option bool :=
  match j with
  | JObj o => Some (bool_decide (is_Some (o !! key)))
  | JArr l => Some (existsb (is_str key) l)
  | JStr s => Some (occurs_in key s)
  | JNull | JBool _ | JNum _ => None
  end.

(** [j[key]] for a string [key]; [None] is a [KeyError] or a [TypeError]. *)
Definition py_getitem (j : json) (key : string) : option json :=
  match j with
  | JObj o => o !! key
  | _ => None
  end.

(** [url.rstrip('/')] *)
Fixpoint rstrip_slash (url : string) : string :=
  match url with
  | EmptyString => EmptyString
  | String c rest =>
    match rstrip_slash rest with
    | EmptyString => if Ascii.eqb c "/"%char then EmptyString else String c EmptyString
    | stripped => String c stripped
    end
  end.

(** *** [save_excalidraw_data] *)

Inductive save_response : Type :=
  | SaveSuccess          (* [{'status': 'success'}] *)
  | SaveError            (* [{'status': 'error', ...}, 500] *)
  | SaveNotFound.        (* [db.get_or_404] aborts with 404 *)

(** [if key in json_data: current_data[key] = json_data[key]] *)
Definition merge_key (key : string) (json_data : json)
    (current_data : gmap string json) : option (gmap string json) :=
  present ← py_in key json_data;
  if present : bool then
    v ← py_getitem json_data key; Some (<[key:=v]> current_data)
  else Some current_data.

Definition save_excalidraw_data (drawing_id : string) (json_data : json)
    (fault : option db_call) (db : database) : save_response * database :=
  match Excalidraw db !! drawing_id with
  | None => (SaveNotFound, db)
  | Some drawing_data =>
    let merged :=
      current_data ← merge_key "elements" json_data drawing_data;
      current_data ← merge_key "appState" json_data current_data;
      current_data ← merge_key "files" json_data current_data;
      merge_key "name" json_data current_data in
    match merged, fault with
    | Some current_data, (None | Some Query) =>
      (SaveSuccess, mkDb (<[drawing_id:=current_data]> (Excalidraw db)) (instances db))
    | _, _ => (SaveError, db)
    end
  end.

(** *** [add_instance] *)

Inductive flash : Type :=
  | Required                      (* 'Name and URL are required.' *)
  | AlreadyExists (url : string)  (* 'Error: An instance with URL ... already exists.' *)
  | Added                         (* 'Instance added.' *)
  | ErrorAdding.                  (* 'Error adding instance: ...' *)

(** [inst.data.get('url') == url] *)
Definition has_url (url : string) (inst : Instance) : bool :=
  match data inst !! "url" with
  | Some (JStr s) => String.eqb s url
  | _ => false
  end.

(** [name] and [url] are the form fields ([request.form.get]: [None] when
    absent); [new_id] is the [uuid4] of the new row. *)
Definition add_instance (name url : option string) (new_id : string)
    (fault : option db_call) (db : database) : flash * database :=
  match name, url with
  | Some name, Some url =>
    if String.eqb name "" || String.eqb url "" then (Required, db)
    else
      let url := rstrip_slash url in
      match fault with
      | Some Query => (ErrorAdding, db)
      | _ =>
        if existsb (has_url url) (instances db) then (AlreadyExists url, db)
        else
          let new_instance :=
            mkInstance new_id (<["name":=JStr name]> (<["url":=JStr url]> ∅)) in
          match fault with
          | Some Commit => (ErrorAdding, db)
          | _ => (Added, mkDb (Excalidraw db) (instances db ++ [new_instance]))
          end
      end
  | _, _ => (Required, db)
  end.

(** *** [delete_instance] *)

Definition delete_instance (instance_id : string) (fault : option db_call)
    (db : database) : database :=
  match fault with
  | Some Commit => db
  | _ =>
    mkDb (Excalidraw db)
      (filter (λ inst, id inst ≠ instance_id) (instances db))
  end.

(** *** [seed_nodes] *)

(** The loop over [predefined_nodes]: the instances added to the session and
    their count; [None] when an entry raises (an entry that is no object has
    no [.get], a truthy [url] that is no string has no [.rstrip]). [uuid]
    gives the identifiers that [uuid4] draws, in order. *)
Fixpoint seed_loop (predefined_nodes : list json) (uuid : nat → string)
    (count : nat) (session : list Instance) : option (nat * list Instance) :=
  match predefined_nodes with
  | [] => Some (count, session)
  | node_data :: rest =>
    match node_data with
    | JObj o =>
      let name := default JNull (o !! "name") in
      let url := default JNull (o !! "url") in
      if truthy name && truthy url then
        match url with
        | JStr url =>
          let url := rstrip_slash url in
          let new_instance :=
            mkInstance (uuid count) (<["name":=name]> (<["url":=JStr url]> ∅)) in
          seed_loop rest uuid (S count) (session ++ [new_instance])
        | _ => None
        end
      else seed_loop rest uuid count session
    | _ => None
    end
  end.

(** [nodes_file]: [None] when there is no [nodes.json]; [Some None] when it
    cannot be read as JSON ([json.load] raises); else its value. A value
    that is no array seeds nothing: it has no length, or its items (the keys
    of an object, the characters of a string) have no [.get]. *)
Definition seed_nodes (nodes_file : option (option json)) (uuid : nat → string)
    (fault : option db_call) (db : database) : database :=
  match nodes_file with
  | None => db
  | Some file =>
    match fault with
    | Some Query => db
    | _ =>
      match instances db with
      | [] =>
        match file with
        | Some (JArr predefined_nodes) =>
          match seed_loop predefined_nodes uuid 0 [] with
          | Some (count, session) =>
            if bool_decide (0 < count) then
              match fault with
              | Some Commit => db
              | _ => mkDb (Excalidraw db) (instances db ++ session)
              end
            else db
          | None => db
          end
        | _ => db
        end
      | _ :: _ => db
      end
    end
  end.

(** *** The vocabulary of the statements *)

(** The keys [save_excalidraw_data] looks for in the request, in its order. *)
Definition mergeable : list string := ["elements"; "appState"; "files"; "name"].

(** The stored payload after the keys [keys] of the request [req] were
    copied into it, one after the other. *)
Definition merge_keys (req : gmap string json) (keys : list string)
    (current_data : gmap string json) : gmap string json :=
  foldl (λ cur key, match req !! key with
                    | Some v => <[key:=v]> cur
                    | None => cur
                    end) current_data keys.

(** The row [add_instance] stores. *)
Definition new_row (new_id name url : string) : Instance :=
  mkInstance new_id (<["name":=JStr name]> (<["url":=JStr (rstrip_slash url)]> ∅)).

(** The operations that change the instance table. *)
Inductive op : Type :=
  | AddInstance (name url : option string) (new_id : string) (fault : option db_call)
  | SeedNodes (nodes_file : option (option json)) (uuid : nat → string)
      (fault : option db_call)
  | DeleteInstance (instance_id : string) (fault : option db_call).

Definition apply_op (db : database) (o : op) : database :=
  match o with
  | AddInstance name url new_id fault => (add_instance name url new_id fault db).2
  | SeedNodes nodes_file uuid fault => seed_nodes nodes_file uuid fault db
  | DeleteInstance instance_id fault => delete_instance instance_id fault db
  end.

(** The store after the operations [ops], from the state [db]. *)
Definition run_ops (ops : list op) (db : database) : database :=
  foldl apply_op db ops.

Definition empty_db : database := mkDb ∅ [].

(** The URL, without its trailing slashes, of a manifest entry that seeding
    accepts: an object with a truthy [name] and a non-empty string [url]. *)
Definition entry_url (node_data : json) : option string :=
  match node_data with
  | JObj o =>
    if truthy (default JNull (o !! "name")) && truthy (default JNull (o !! "url")) then
      match o !! "url" with
      | Some (JStr url) => Some (rstrip_slash url)
      | _ => None
      end
    else None
  | _ => None
  end.

(** A manifest whose accepted entries have pairwise different URLs once the
    trailing slashes are gone. *)
Definition distinct_urls (nodes_file : option (option json)) : Prop :=
  match nodes_file with
  | Some (Some (JArr predefined_nodes)) => NoDup (omap entry_url predefined_nodes)
  | _ => True
  end.

Definition seeds_distinct_urls (o : op) : Prop :=
  match o with
  | SeedNodes nodes_file _ _ => distinct_urls nodes_file
  | _ => True
  end.

(** Every row has a string under [url], and no two rows the same. *)
Definition url_field (inst : Instance) : option json := data inst !! "url".

Definition urls_unique (rows : list Instance) : Prop :=
  Forall (λ inst, ∃ u, url_field inst = Some (JStr u)) rows ∧
  NoDup (url_field <$> rows).

(** Every row has a string under [url] that has no trailing slash. *)
Definition urls_normalized (rows : list Instance) : Prop :=
  Forall (λ inst, ∃ u, url_field inst = Some (JStr u) ∧ rstrip_slash u = u) rows.

End Store.

(** ** The pull orchestrator *)

Module Pull.
Import Store.

Section WithStr.

(** [str(j)], as the f-strings apply it to the name of an instance. *)
Variable str : json → string.

(** The global [pull_status]: [{'status': ..., 'message': ...}]. *)
Record pull_status_t : Type := mkStatus {
  status : string;
  message : string;
}.

(** What the [requests.get] of the task meets. *)
Inductive fetched : Type :=
  | RequestException (e : string)
  | Response (content_type : string).

(** What one run of [_run_pull_task] meets: the store it reads, the answer
    of the remote instance, whether writing the temporary file raises, and
    what [restore_data_from_zip] raises or returns. *)
Record task_env : Type := mkEnv {
  env_db : database;
  env_fetched : fetched;
  env_save_raises : option string;
  env_restored : string + bool * string;
}.

(** [_run_pull_task]: the values it assigns to [pull_status], in order. The
    first message stands for the text of the [NotFound] that
    [db.get_or_404] raises. *)
Definition _run_pull_task (env : task_env) (instance_id : string)
    : list pull_status_t :=
  match list_find (λ inst, id inst = instance_id) (instances (env_db env)) with
  | None => [mkStatus "error" "An unexpected error occurred: 404 Not Found"]
  | Some (_, instance) =>
    let name := str (Instance_name instance) in
    mkStatus "running" ("Attempting to pull from " +:+ name +:+ "...") ::
    match env_fetched env with
    | RequestException e =>
      [mkStatus "error" ("Failed to connect or download: " +:+ e)]
    | Response content_type =>
      if negb (occurs_in "application/zip" content_type) then
        [mkStatus "error"
           ("An unexpected error occurred: Error: Remote instance (" +:+ name +:+
            ") did not return a zip file.")]
      else
        mkStatus "running" "Download complete. Saving to temporary file..." ::
        match env_save_raises env with
        | Some e => [mkStatus "error" ("An unexpected error occurred: " +:+ e)]
        | None =>
          mkStatus "running" "Restoring data from file..." ::
          match env_restored env with
          | inl e => [mkStatus "error" ("An unexpected error occurred: " +:+ e)]
          | inr (true, msg) =>
            [mkStatus "success"
               (msg +:+ " It's recommended to restart the application to ensure changes are loaded.")]
          | inr (false, msg) =>
            [mkStatus "error" ("An unexpected error occurred: " +:+ msg)]
          end
        end
    end
  end.

(** The process: the status slot, and for every background thread still
    running the assignments to [pull_status] it has yet to make. *)
Record state : Type := mkState {
  pull_status : pull_status_t;
  threads : list (list pull_status_t);
}.

Definition initial : state := mkState (mkStatus "idle" "") [].

Inductive response : Type :=
  | AlreadyInProgress   (* flash 'A pull operation is already in progress.' *)
  | Started.

(** [start_pull], the whole body under [pull_lock]. [env] is what the new
    thread is going to meet. *)
Definition start_pull (instance_id : string) (env : task_env) (s : state)
    : response * state :=
  if String.eqb (status (pull_status s)) "running" then (AlreadyInProgress, s)
  else
    (Started,
     mkState (mkStatus "running" "Initializing pull...")
       (threads s ++ [_run_pull_task env instance_id])).

(** The thread [i] makes its next assignment (under [pull_lock]); after its
    last one it ends. *)
Definition thread_step (i : nat) (s : state) : state :=
  match threads s !! i with
  | Some (w :: rest) =>
    mkState w
      match rest with
      | [] => delete i (threads s)
      | _ => <[i:=rest]> (threads s)
      end
  | _ => s
  end.

(** [api_pull_status]: a copy of the slot. *)
Definition api_pull_status (s : state) : pull_status_t := pull_status s.

Inductive event : Type :=
  | StartPull (instance_id : string) (env : task_env)
  | ThreadStep (i : nat).

Definition handle (s : state) (ev : event) : state :=
  match ev with
  | StartPull instance_id env => (start_pull instance_id env s).2
  | ThreadStep i => thread_step i s
  end.

(** The process after the events [evs], in the order the lock admits them. *)
Definition run (evs : list event) : state := foldl handle initial evs.

End WithStr.

(** *** The vocabulary of the statements *)

(** The assignments a thread has yet to make: [running] ones, then a last
    one, [success] or [error]. *)
Fixpoint pending (t : list pull_status_t) : Prop :=
  match t with
  | [] => False
  | w :: rest =>
    match rest with
    | [] => status w = "success" ∨ status w = "error"
    | _ => status w = "running" ∧ pending rest
    end
  end.

(** At most one thread, and [running] in the slot while it lives. *)
Definition single_flight (s : state) : Prop :=
  threads s = [] ∨
  ∃ t, threads s = [t] ∧ pending t ∧ status (pull_status s) = "running".

End Pull.

(** ** The collaboration rooms *)

Module Collab.
Import Store.

(** A Python [dict] with string keys whose order matters (the order of
    insertion): [participants] and the dictionaries in it. *)
Abbreviation dict V := (list (string * V)).

Fixpoint dict_get {V} (k : string) (d : dict V) : option V :=
  match d with
  | [] => None
  | (k', v) :: rest => if decide (k = k') then Some v else dict_get k rest
  end.

(** [d[k] = v]: in place when [k] is a key, else at the end. *)
Fixpoint dict_set {V} (k : string) (v : V) (d : dict V) : dict V :=
  match d with
  | [] => [(k, v)]
  | (k', v') :: rest =>
    if decide (k = k') then (k, v) :: rest else (k', v') :: dict_set k v rest
  end.

(** [d.pop(k)], for what is left in [d]. *)
Definition dict_pop {V} (k : string) (d : dict V) : dict V :=
  filter (λ kv, kv.1 ≠ k) d.

(** [list(d.values())] *)
Definition dict_values {V} (d : dict V) : list V := d.*2.

(** The server: the document store, the global [participants]
    ([{ room_id: { sid: user_name } }]) and the rooms of Socket.IO (who is
    sent what goes to a room), which [join_room] and [leave_room] change. *)
Record server : Type := mkServer {
  store : database;
  participants : dict (dict json);
  rooms : gmap string (gset string);
}.

(** One [emit]: the event, its payload and the connections it goes to. *)
Record emitted : Type := mkEmit {
  event : string;
  payload : json;
  recipients : gset string;
}.

Definition members (room : string) (s : server) : gset string :=
  default ∅ (rooms s !! room).

(** [join_room(room)] and [leave_room(room)], for the connection [sid] of
    the request. *)
Definition join_room (sid room : string) (s : server) : server :=
  mkServer (store s) (participants s) (<[room:={[sid]} ∪ members room s]> (rooms s)).

Definition leave_room (sid room : string) (s : server) : server :=
  mkServer (store s) (participants s) (<[room:=members room s ∖ {[sid]}]> (rooms s)).

(** [emit(event, payload, room=room, include_self=...)] from the handler of
    a request of [sid]. *)
Definition emit (ev : string) (data : json) (room : string) (include_self : bool)
    (sid : string) (s : server) : emitted :=
  mkEmit ev data
    (if include_self then members room s else members room s ∖ {[sid]}).

(** [on_disconnect]: the first room of [participants] that has [sid]. *)
Definition on_disconnect (sid : string) (s : server) : server * list emitted :=
  match list_find (λ entry, is_Some (dict_get sid entry.2)) (participants s) with
  | Some (i, (room, users)) =>
    let users := dict_pop sid users in
    let s := mkServer (store s) (<[i:=(room, users)]> (participants s)) (rooms s) in
    let s := leave_room sid room s in
    (s, [emit "room_users" (JArr (dict_values users)) room true sid s])
  | None => (s, [])
  end.

Section WithStr.

(** [str(j)], as the handlers apply it to the room of a payload. *)
Variable str : json → string.

(** The handlers: [sid] is [request.sid], [data] the payload. [None] is the
    [KeyError] or [TypeError] of [data['room']] or [data['name']], raised
    before anything is changed. *)
Definition on_join (sid : string) (data : json) (s : server)
    : option (server * list emitted) :=
  room ← str <$> py_getitem data "room";
  name ← py_getitem data "name";
  let s := join_room sid room s in
  let users := default [] (dict_get room (participants s)) in
  let users := dict_set sid name users in
  let s := mkServer (store s) (dict_set room users (participants s)) (rooms s) in
  Some (s, [emit "room_users" (JArr (dict_values users)) room true sid s]).

Definition on_update_scene (sid : string) (data : json) (s : server)
    : option (server * list emitted) :=
  room ← str <$> py_getitem data "room";
  Some (s, [emit "update_scene" data room false sid s]).

Definition on_cursor_move (sid : string) (data : json) (s : server)
    : option (server * list emitted) :=
  room ← str <$> py_getitem data "room";
  Some (s, [emit "cursor_move" data room false sid s]).

End WithStr.

(** A server nobody has joined yet. *)
Definition fresh (db : database) : server := mkServer db [] ∅.

End Collab.

(** ** The other routes of the store and of the data root *)

Module Routes.
Import Fs Store.

(** *** Drawings *)

Inductive create_response : Type :=
  | Created (drawing_id : string)   (* 'Drawing created!', redirect to the drawing *)
  | CreateError.                    (* 'Error creating drawing: ...' *)

(** [create_excalidraw]: [name] is the form field ([None] when absent),
    [new_id] the [uuid4] of the row. A row under that identifier already
    makes the commit raise (the primary key), as a failing store does. *)
Definition create_excalidraw (name : option string) (new_id : string)
    (fault : option db_call) (db : database) : create_response * database :=
  let name := default "Untitled" name in
  let directory := "/" in
  let new_drawing : gmap string json :=
    {["name" := JStr name; "directory" := JStr directory; "elements" := JArr [];
      "appState" := JObj ∅; "files" := JObj ∅]} in
  match fault, Excalidraw db !! new_id with
  | Some Commit, _ | _, Some _ => (CreateError, db)
  | _, None => (Created new_id, mkDb (<[new_id:=new_drawing]> (Excalidraw db)) (instances db))
  end.

(** [get_excalidraw_data]: [None] is the 404 of [db.get_or_404]. *)
Definition get_excalidraw_data (drawing_id : string) (db : database)
    : option (gmap string json) :=
  Excalidraw db !! drawing_id.

(** [Excalidraw.name], [.directory] and [.description] *)
Definition Excalidraw_name (drawing_data : gmap string json) : json :=
  default (JStr "Untitled") (drawing_data !! "name").

Definition Excalidraw_directory (drawing_data : gmap string json) : json :=
  default (JStr "/") (drawing_data !! "directory").

Definition Excalidraw_description (drawing_data : gmap string json) : json :=
  default (JStr "") (drawing_data !! "description").

(** *** Instances *)

Inductive delete_response : Type :=
  | Deleted (inst_name : json)   (* 'Instance "..." deleted.' *)
  | ErrorDeleting                (* 'Error deleting instance: ...' *)
  | DeleteNotFound.              (* [db.get_or_404] aborts with 404 *)

(** The route [delete_instance]: the row is looked up first. *)
Definition delete_instance_route (instance_id : string) (fault : option db_call)
    (db : database) : delete_response * database :=
  match list_find (λ inst, id inst = instance_id) (instances db) with
  | None => (DeleteNotFound, db)
  | Some (_, instance) =>
    match fault with
    | Some Commit => (ErrorDeleting, db)
    | _ => (Deleted (Instance_name instance), delete_instance instance_id fault db)
    end
  end.

(** [inject_global_data]: every instance, or none when the query raises. *)
Definition inject_global_data (fault : option db_call) (db : database)
    : list Instance :=
  match fault with
  | Some Query => []
  | _ => instances db
  end.

(** *** Export and import of the data root *)

(** [s.endswith(suffix)] *)
Definition endswith (s suffix : string) : bool :=
  bool_decide (String.length suffix ≤ String.length s) &&
  String.eqb
    (String.substring (String.length s - String.length suffix)
       (String.length suffix) s)
    suffix.


(** What [import_data] flashes. *)
Inductive import_flash : Type :=
  | NoFileSelected         (* 'No file selected.', error *)
  | InvalidFileType        (* 'Invalid file type. Please upload a .zip file.', error *)
  | RestoreError (m : message)
  | RestoreSuccess (m : message)
  | RestartRecommended.    (* info *)

(** [import_data]: [file] is [request.files.get('zip_file')], a file name
    and what was uploaded; the restore runs with the [db] of the
    application. *)
Definition import_data (file : option (string * archive)) : M (list import_flash) :=
  match file with
  | None => mret [NoFileSelected]
  | Some (filename, zip) =>
    if String.eqb filename "" then mret [NoFileSelected]
    else if negb (endswith filename ".zip") then mret [InvalidFileType]
    else
      '(success, msg) ← restore_data_from_zip zip true;
      if success : bool then mret [RestoreSuccess msg; RestartRecommended]
      else mret [RestoreError msg]
  end.

End Routes.

(** ** The pull task on the data root *)

Module PullRun.
Import Fs Store Pull.

Section WithText.

(** [str(j)] on the name of an instance, and [str(e)] on an exception. *)
Variable str : json → string.
Variable exn_text : exn → string.

(** The message [restore_data_from_zip] returns, as a string. *)
Definition message_text (m : Fs.message) : string :=
  match m with
  | ExtractFailed e => "Failed to extract new data zip: " +:+ exn_text e
  | Restored => "Data restored successfully! The app is using the new data."
  | SwapFailed e =>
    "Failed to swap data contents: " +:+ exn_text e +:+
    ". Original data has been preserved."
  | Critical e restore_e =>
    "CRITICAL: Failed to restore data (" +:+ exn_text e +:+
    ") AND failed to restore backup (" +:+ exn_text restore_e +:+
    "). App may be broken."
  end.

(** What the [requests.get] of the task meets, with the body of the answer. *)
Inductive answer : Type :=
  | RequestFailed (e : string)
  | Answered (content_type : string) (content : archive).

(** [_run_pull_task] with its effect on the data root: the values it assigns
    to [pull_status], and the world it leaves. [restore_data_from_zip] runs
    only when the steps before it went through. *)
Definition run_pull_task_on (db : database) (instance_id : string)
    (remote : answer) (save_raises : option string) (w : world)
    : list pull_status_t * world :=
  match list_find (λ inst, id inst = instance_id) (instances db) with
  | None => ([mkStatus "error" "An unexpected error occurred: 404 Not Found"], w)
  | Some (_, instance) =>
    let name := str (Instance_name instance) in
    let attempting := mkStatus "running" ("Attempting to pull from " +:+ name +:+ "...") in
    match remote with
    | RequestFailed e =>
      ([attempting; mkStatus "error" ("Failed to connect or download: " +:+ e)], w)
    | Answered content_type content =>
      if negb (occurs_in "application/zip" content_type) then
        ([attempting;
          mkStatus "error"
            ("An unexpected error occurred: Error: Remote instance (" +:+ name +:+
             ") did not return a zip file.")], w)
      else
        let saving := mkStatus "running" "Download complete. Saving to temporary file..." in
        match save_raises with
        | Some e =>
          ([attempting; saving;
            mkStatus "error" ("An unexpected error occurred: " +:+ e)], w)
        | None =>
          let restoring := mkStatus "running" "Restoring data from file..." in
          let '(restored, w') := restore_data_from_zip content true w in
          ([attempting; saving; restoring;
            match restored with
            | inl e =>
              mkStatus "error" ("An unexpected error occurred: " +:+ exn_text e)
            | inr (true, msg) =>
              mkStatus "success"
                (message_text msg +:+
                 " It's recommended to restart the application to ensure changes are loaded.")
            | inr (false, msg) =>
              mkStatus "error" ("An unexpected error occurred: " +:+ message_text msg)
            end], w')
        end
    end
  end.

(** The same run as [_run_pull_task] sees it. *)
Definition env_of (db : database) (remote : answer) (save_raises : option string)
    (w : world) : task_env :=
  mkEnv db
    match remote with
    | RequestFailed e => RequestException e
    | Answered content_type _ => Response content_type
    end
    save_raises
    match remote with
    | RequestFailed _ => inl ""
    | Answered _ content =>
      match (restore_data_from_zip content true w).1 with
      | inl e => inl (exn_text e)
      | inr (success, msg) => inr (success, message_text msg)
      end
    end.

End WithText.

(** The slot is at [running] exactly while a thread lives. *)
Definition slot_tracks_thread (s : state) : Prop :=
  (threads s = [] ∧ status (pull_status s) ≠ "running") ∨
  (∃ t, threads s = [t] ∧ pending t ∧ status (pull_status s) = "running").

End PullRun.

(** ** The rooms over a sequence of events *)

Module CollabRun.
Import Store Collab.

Inductive event : Type :=
  | Join (sid : string) (data : json)
  | Disconnect (sid : string)
  | UpdateScene (sid : string) (data : json)
  | CursorMove (sid : string) (data : json).

(** The server after the handler of [ev]; a handler that raises leaves it as
    it was. *)
Definition handle (str : json → string) (s : server) (ev : event) : server :=
  match ev with
  | Join sid data => from_option fst s (on_join str sid data s)
  | Disconnect sid => (on_disconnect sid s).1
  | UpdateScene sid data => from_option fst s (on_update_scene str sid data s)
  | CursorMove sid data => from_option fst s (on_cursor_move str sid data s)
  end.

Definition run (str : json → string) (db : database) (evs : list event) : server :=
  foldl (handle str) (fresh db) evs.

End CollabRun.

(** ** More vocabulary of the statements *)

Module Vocabulary.
Import Store.

(** A manifest entry on which the loop of [seed_nodes] raises: it is no
    object, or its [name] and [url] are truthy and the [url] is no string. *)
Definition entry_raises (node_data : json) : bool :=
  match node_data with
  | JObj o =>
    truthy (default JNull (o !! "name")) && truthy (default JNull (o !! "url")) &&
    match o !! "url" with
    | Some (JStr _) => false
    | _ => true
    end
  | _ => true
  end.

(** The name and the URL, without its trailing slashes, of a manifest entry
    that seeding stores. *)
Definition accepted_entry (node_data : json) : option (json * string) :=
  match node_data with
  | JObj o =>
    let name := default JNull (o !! "name") in
    if truthy name && truthy (default JNull (o !! "url")) then
      match o !! "url" with
      | Some (JStr url) => Some (name, rstrip_slash url)
      | _ => None
      end
    else None
  | _ => None
  end.

(** The row seeding stores for the [i]-th accepted entry. *)
Definition seeded_row (uuid : nat → string) (i : nat) (entry : json * string)
    : Instance :=
  mkInstance (uuid i) (<["name":=entry.1]> (<["url":=JStr entry.2]> ∅)).

(** [n] slashes. *)
Fixpoint slashes (n : nat) : string :=
  match n with
  | 0 => ""
  | S n => String "/" (slashes n)
  end.

(** [import_data] from the restore on. *)
Definition flashes_of (restored : (Fs.exn + bool * Fs.message) * Fs.world)
    : (Fs.exn + list Routes.import_flash) * Fs.world :=
  (match restored.1 with
   | inl e => inl e
   | inr (true, msg) => inr [Routes.RestoreSuccess msg; Routes.RestartRecommended]
   | inr (false, msg) => inr [Routes.RestoreError msg]
   end, restored.2).

End Vocabulary.

(** ** Concrete inputs *)

Module Examples.
Import Fs Store Collab.

(** A data root with a file [X] and a directory [Y]. *)
Definition data_XY : gmap string node :=
  {["X" := File "x"; "Y" := Dir {["z" := File "zz"]}]}.

(** A valid archive of two files, and the same archive cut after one. *)
Definition zip_AB : archive :=
  mkArchive {["A" := File "a"; "B" := File "b"]} None.

Definition zip_cut : archive :=
  mkArchive {["A" := File "a"; "B" := File "b"]} (Some 1).

Definition row (row_id name url : string) : Instance :=
  mkInstance row_id {["name" := JStr name; "url" := JStr url]}.

(** Instances as [add_instance] stores them, and a table in which a URL
    ends with a slash (as an imported data root can hold). *)
Definition db_a_b : database :=
  mkDb ∅ [row "1" "a" "http://a"; row "2" "b" "http://b"].

Definition db_a_slash_b : database :=
  mkDb ∅ [row "1" "a" "http://a/"; row "2" "b" "http://b"].

Definition entry (name url : string) : json :=
  JObj {["name" := JStr name; "url" := JStr url]}.

(** A manifest of three entries, and one that names an instance twice. *)
Definition manifest_abc : json :=
  JArr [entry "a" "http://a"; entry "b" "http://b/"; entry "c" "http://c"].

Definition manifest_a_twice : json :=
  JArr [entry "a" "http://a"; entry "again" "http://a/"].

Definition uuid_of (n : nat) : string := "uuid-" +:+ pretty n.

(** Two connections under one name in room 5. *)
Definition two_bobs : server :=
  mkServer (mkDb ∅ [])
    [("5", [("A", JStr "bob"); ("B", JStr "bob")])]
    {["5" := {["A"; "B"]}]}.

(** A drawing as [create_excalidraw] stores it. *)
Definition drawing_1 : gmap string json :=
  {["name" := JStr "Untitled"; "directory" := JStr "/"; "elements" := JArr [];
    "appState" := JObj ∅; "files" := JObj ∅]}.

(** [str] on the names of these examples. *)
Definition str_of (j : json) : string :=
  match j with
  | JStr s => s
  | _ => ""
  end.

End Examples.

(** * Properties *)

(** ** The restore of the data root *)

Module FsFacts.
Import Fs.

(** *** The three paths *)

Lemma stat_write_eq p n s : stat p (write p n s) = n.
Proof. by destruct p. Qed.

Lemma stat_write_ne p q n s : p ≠ q → stat p (write q n s) = stat p s.
Proof. by destruct p, q. Qed.

Lemma write_stat p s : write p (stat p s) s = s.
Proof. by destruct p, s. Qed.

Lemma write_write p n m s : write p n (write p m s) = write p n s.
Proof. by destruct p. Qed.

Lemma write_comm p q n m s :
  p ≠ q → write p n (write q m s) = write q m (write p n s).
Proof. by destruct p, q. Qed.

(** The names [os.listdir] gives are those bound in the directory, each once. *)
Lemma elem_of_names (d : gmap string node) k :
  k ∈ (map_to_list d).*1 ↔ is_Some (d !! k).
Proof.
  rewrite list_elem_of_fmap. split.
  - intros [[k' n] [-> Hin]]. apply elem_of_map_to_list in Hin. by exists n.
  - intros [n Hn]. exists (k, n). split; [done|]. by apply elem_of_map_to_list.
Qed.

Lemma NoDup_names (d : gmap string node) : NoDup (map_to_list d).*1.
Proof. apply NoDup_fst_map_to_list. Qed.

(** A directory out of which every listed entry went is empty, and an empty
    one into which they came holds them all. *)
Lemma all_moved_out (d d' : gmap string node) :
  (∀ k, d' !! k = if decide (k ∈ (map_to_list d).*1) then None else d !! k) →
  d' = ∅.
Proof.
  intros H. apply map_eq. intros k. rewrite H, lookup_empty.
  case_decide as Hk; [done|]. rewrite elem_of_names in Hk.
  by apply eq_None_not_Some.
Qed.

Lemma all_moved_in (d d' : gmap string node) :
  (∀ k, d' !! k = if decide (k ∈ (map_to_list d).*1) then d !! k
                  else (∅ : gmap string node) !! k) →
  d' = d.
Proof.
  intros H. apply map_eq. intros k. rewrite H.
  case_decide as Hk; [done|]. rewrite elem_of_names in Hk.
  rewrite lookup_empty. symmetry. by apply eq_None_not_Some.
Qed.

(** *** Runs in the monad *)

Ltac unfold_M :=
  unfold mbind, M_bind, bind, mret, M_ret, ret, raise, when, get_fs, put_fs,
    fault_point in *.

Ltac case_fault w :=
  let rest := fresh "rest" in
  destruct (faults w) as [|[] rest]; simpl in *.

Lemma bind_ok {A B} (m : M A) (k : A → M B) w b w' :
  (m ≫= k) w = (inr b, w') →
  ∃ a w1, m w = (inr a, w1) ∧ k a w1 = (inr b, w').
Proof.
  unfold mbind, M_bind, bind. destruct (m w) as [[e|a] w1]; [done|]. eauto.
Qed.

Lemma bind_raised {A B} (m : M A) (k : A → M B) w e w' :
  (m ≫= k) w = (inl e, w') →
  m w = (inl e, w') ∨ ∃ a w1, m w = (inr a, w1) ∧ k a w1 = (inl e, w').
Proof.
  unfold mbind, M_bind, bind. destruct (m w) as [[e'|a] w1]; intros H.
  - left. by simplify_eq.
  - right. by exists a, w1.
Qed.

Lemma bind_run {A B} (m : M A) (k : A → M B) w a w1 :
  m w = (inr a, w1) → (m ≫= k) w = k a w1.
Proof. unfold mbind, M_bind, bind. by intros ->. Qed.

Lemma try_except_run {A} (m : M A) w :
  try_except m w = (inr (m w).1, (m w).2).
Proof. unfold try_except. by destruct (m w). Qed.

Lemma try_finally_ok {A} (body : M A) cleanup w a w' :
  try_finally body cleanup w = (inr a, w') →
  ∃ w1, body w = (inr a, w1) ∧ cleanup w1 = (inr (), w').
Proof.
  unfold try_finally. destruct (body w) as [r w1].
  destruct (cleanup w1) as [[e|[]] w2] eqn:Hc; intros; simplify_eq. eauto.
Qed.

Lemma when_ok b body w w' :
  when b body w = (inr (), w') →
  if b then body w = (inr (), w') else w' = w.
Proof. unfold when, ret. destruct b; intros; by simplify_eq. Qed.

(** *** The library calls that did not raise *)

Lemma fault_point_ok site w w' :
  fault_point site w = (inr (), w') → files w' = files w.
Proof.
  unfold fault_point. destruct (faults w) as [|[] rest]; intros H; by simplify_eq.
Qed.

Lemma path_exists_run p w :
  path_exists p w = (inr (bool_decide (is_Some (stat p (files w)))), w).
Proof. done. Qed.

Lemma mkdtemp_ok w w' :
  mkdtemp w = (inr (), w') →
  files w' = write extract_dir (Some (Dir ∅)) (files w).
Proof. unfold mkdtemp. unfold_M. case_fault w; intros; by simplify_eq. Qed.

Lemma makedirs_ok p w w' :
  makedirs p w = (inr (), w') →
  stat p (files w) = None ∧ files w' = write p (Some (Dir ∅)) (files w).
Proof.
  unfold makedirs. unfold_M.
  case_fault w; destruct (stat p (files w)); intros; by simplify_eq.
Qed.

Lemma rmtree_ok p w w' :
  rmtree p w = (inr (), w') →
  is_Some (dir_of p (files w)) ∧ files w' = write p None (files w).
Proof.
  unfold rmtree, dir_of. unfold_M.
  case_fault w; destruct (stat p (files w)) as [[|]|]; intros; by simplify_eq.
Qed.

Lemma listdir_ok p w items w' :
  listdir p w = (inr items, w') →
  ∃ d, stat p (files w) = Some (Dir d) ∧ items = (map_to_list d).*1 ∧
       files w' = files w.
Proof.
  unfold listdir. unfold_M.
  case_fault w; destruct (stat p (files w)) as [[|d]|]; intros; simplify_eq; eauto.
Qed.

Lemma move_ok src item dst w w' dd :
  stat dst (files w) = Some (Dir dd) →
  move src item dst w = (inr (), w') →
  ∃ sd n, stat src (files w) = Some (Dir sd) ∧ sd !! item = Some n ∧
          dd !! item = None ∧
          files w' = write dst (Some (Dir (<[item:=n]> dd)))
                       (write src (Some (Dir (delete item sd))) (files w)).
Proof.
  intros Hdst. unfold move, dir_of. unfold_M.
  case_fault w; rewrite ?Hdst;
    destruct (stat src (files w)) as [[|sd]|]; try done;
    destruct (sd !! item) as [n|] eqn:Hn; try done;
    destruct (dd !! item) eqn:Hd; try done;
    intros; simplify_eq; eauto 10.
Qed.

(** A loop of moves that did not raise took every listed entry out of the
    source directory and put it, under its name, into the destination. *)
Lemma for_each_move_ok src dst items : ∀ w w' sd dd,
  src ≠ dst →
  stat src (files w) = Some (Dir sd) →
  stat dst (files w) = Some (Dir dd) →
  for_each items (λ item, move src item dst) w = (inr (), w') →
  ∃ sd' dd',
    files w' = write dst (Some (Dir dd')) (write src (Some (Dir sd')) (files w)) ∧
    (∀ k, k ∈ items → is_Some (sd !! k)) ∧
    (∀ k, sd' !! k = if decide (k ∈ items) then None else sd !! k) ∧
    (∀ k, dd' !! k = if decide (k ∈ items) then sd !! k else dd !! k).
Proof.
  induction items as [|i rest IH]; intros w w' sd dd Hne Hsrc Hdst Hrun.
  - simpl in Hrun. unfold mret, M_ret, ret in Hrun. simplify_eq.
    exists sd, dd. split_and!.
    + rewrite <- Hsrc, write_stat, <- Hdst, write_stat. done.
    + intros k Hk. by apply elem_of_nil in Hk.
    + intros k. case_decide as Hk; [by apply elem_of_nil in Hk|done].
    + intros k. case_decide as Hk; [by apply elem_of_nil in Hk|done].
  - simpl in Hrun. apply bind_ok in Hrun as ([] & w1 & Hmove & Hrest).
    destruct (move_ok _ _ _ _ _ _ Hdst Hmove) as (sd0 & n & Hsrc0 & Hi & Hdi & Hw1).
    rewrite Hsrc in Hsrc0. simplify_eq.
    assert (Hsrc1 : stat src (files w1) = Some (Dir (delete i sd0))).
    { rewrite Hw1, stat_write_ne, stat_write_eq; done. }
    assert (Hdst1 : stat dst (files w1) = Some (Dir (<[i:=n]> dd))).
    { rewrite Hw1, stat_write_eq; done. }
    destruct (IH _ _ _ _ Hne Hsrc1 Hdst1 Hrest) as (sd' & dd' & Hw' & Hin & Hsd' & Hdd').
    assert (Hfresh : i ∉ rest).
    { intros Hi'. apply Hin in Hi'. rewrite lookup_delete_eq in Hi'. by destruct Hi'. }
    assert (Hhere : i ∈ i :: rest) by (apply elem_of_cons; by left).
    assert (Hthere : ∀ k, k ≠ i → k ∈ i :: rest ↔ k ∈ rest).
    { intros k Hk. rewrite elem_of_cons. split; [by intros [?|?]|auto]. }
    exists sd', dd'. split_and!.
    + rewrite Hw', Hw1. by rewrite (write_comm src dst), !write_write.
    + intros k [->|Hk]%elem_of_cons; [by eexists|].
      apply Hin in Hk. destruct (decide (k = i)) as [->|Hki].
      * rewrite lookup_delete_eq in Hk. by destruct Hk.
      * by rewrite lookup_delete_ne in Hk.
    + intros k. rewrite Hsd'. destruct (decide (k = i)) as [->|Hki].
      * rewrite lookup_delete_eq, (decide_True _ _ Hhere). by case_decide.
      * rewrite lookup_delete_ne by done.
        destruct (decide (k ∈ rest)) as [Hk|Hk].
        -- by rewrite decide_True by (by apply Hthere).
        -- by rewrite decide_False by (by rewrite Hthere).
    + intros k. rewrite Hdd'. destruct (decide (k = i)) as [->|Hki].
      * by rewrite (decide_False _ _ Hfresh), lookup_insert_eq, (decide_True _ _ Hhere).
      * rewrite lookup_delete_ne, lookup_insert_ne by done.
        destruct (decide (k ∈ rest)) as [Hk|Hk].
        -- by rewrite decide_True by (by apply Hthere).
        -- by rewrite decide_False by (by rewrite Hthere).
Qed.

(** *** The swap when nothing raised *)

(** Steps 3a to 3c: the data root is empty and the backup holds what it
    held. *)
Lemma move_to_backup_ok db_handle w w' data :
  stat DATA_DIR (files w) = Some (Dir data) →
  move_to_backup db_handle w = (inr (), w') →
  files w' = write backup_dir (Some (Dir data))
               (write DATA_DIR (Some (Dir ∅)) (files w)).
Proof.
  intros Hdata Hrun. unfold move_to_backup in Hrun.
  apply bind_ok in Hrun as ([] & w1 & H3a & Hrun).
  assert (Hw1 : files w1 = files w).
  { apply when_ok in H3a. destruct db_handle; simpl in H3a; [|by subst].
    apply bind_ok in H3a as ([] & w0 & Ha & Hb).
    apply fault_point_ok in Ha, Hb. congruence. }
  apply bind_ok in Hrun as ([] & w2 & H3b & Hrun).
  apply bind_ok in H3b as (b & w1' & Hex & H3b).
  rewrite path_exists_run in Hex. simplify_eq.
  apply bind_ok in Hrun as ([] & w3 & Hmk & Hrun).
  apply makedirs_ok in Hmk as [_ Hw3].
  assert (Hw3' : files w3 = write backup_dir (Some (Dir ∅)) (files w)).
  { rewrite Hw3. apply when_ok in H3b. case_bool_decide; simpl in H3b.
    - apply rmtree_ok in H3b as [_ ->]. by rewrite write_write, Hw1.
    - by rewrite H3b, Hw1. }
  clear Hw3 H3b.
  apply bind_ok in Hrun as (items & w4 & Hls & Hrun).
  apply listdir_ok in Hls as (d & Hd & -> & Hw4).
  rewrite Hw3', stat_write_ne, Hdata in Hd by done. simplify_eq.
  eapply (for_each_move_ok DATA_DIR backup_dir) in Hrun
    as (sd' & dd' & Hw5 & _ & Hsd' & Hdd');
    [|done|rewrite Hw4, Hw3', stat_write_ne, Hdata; done
     |rewrite Hw4, Hw3', stat_write_eq; done].
  apply all_moved_out in Hsd'. apply all_moved_in in Hdd'. subst sd' dd'.
  by rewrite Hw5, Hw4, Hw3', (write_comm DATA_DIR backup_dir), !write_write.
Qed.

(** Steps 3d and 3e: the data root holds what was extracted, and the backup
    is gone. *)
Lemma move_from_extracted_ok w w' old new :
  files w = mkFs (Some (Dir ∅)) (Some (Dir old)) (Some (Dir new)) →
  move_from_extracted w = (inr (), w') →
  files w' = mkFs (Some (Dir new)) None (Some (Dir ∅)).
Proof.
  intros Hw Hrun. unfold move_from_extracted in Hrun.
  apply bind_ok in Hrun as (items & w1 & Hls & Hrun).
  apply listdir_ok in Hls as (n & Hn & -> & Hw1).
  rewrite Hw in Hn. simpl in Hn. simplify_eq.
  apply bind_ok in Hrun as ([] & w2 & Hin & Hrun).
  eapply (for_each_move_ok extract_dir DATA_DIR) in Hin
    as (sd' & dd' & Hw2 & _ & Hsd' & Hdd');
    [|done|by rewrite Hw1, Hw..].
  apply all_moved_out in Hsd'. apply all_moved_in in Hdd'. subst sd' dd'.
  apply bind_ok in Hrun as (b & w3 & Hex & Hrun).
  rewrite path_exists_run in Hex. simplify_eq.
  apply when_ok in Hrun. rewrite Hw2, Hw1, Hw in Hrun. simpl in Hrun.
  apply rmtree_ok in Hrun as [_ ->]. by rewrite Hw2, Hw1, Hw.
Qed.

Lemma swap_contents_ok db_handle w w' data new :
  files w = mkFs (Some (Dir data)) (at_backup (files w)) (Some (Dir new)) →
  swap_contents db_handle w = (inr (), w') →
  files w' = mkFs (Some (Dir new)) None (Some (Dir ∅)).
Proof.
  intros Hw Hrun. unfold swap_contents in Hrun.
  apply bind_ok in Hrun as ([] & w1 & Hout & Hin).
  eapply move_to_backup_ok in Hout; [|by rewrite Hw].
  eapply move_from_extracted_ok; [|done]. by rewrite Hout, Hw.
Qed.

(** Steps 5 and 6 after a swap that went through. *)
Lemma final_cleanup_ok w w' data extracted :
  files w = mkFs data None (Some (Dir extracted)) →
  final_cleanup w = (inr (), w') → files w' = mkFs data None None.
Proof.
  intros Hw Hrun. unfold final_cleanup in Hrun.
  apply bind_ok in Hrun as ([] & w1 & H5 & H6).
  apply bind_ok in H5 as (b & w0 & Hex & H5).
  rewrite path_exists_run in Hex. simplify_eq.
  rewrite Hw in H5. simpl in H5. apply rmtree_ok in H5 as [_ Hw1].
  apply bind_ok in H6 as (b & w2 & Hex & H6).
  rewrite path_exists_run in Hex. simplify_eq.
  rewrite Hw1, Hw in H6. simpl in H6. unfold ret in H6. simplify_eq.
  by rewrite Hw1, Hw.
Qed.

(** *** Runs without a fault of the environment *)

Lemma move_quiet src item dst s sd dd n :
  stat src s = Some (Dir sd) → sd !! item = Some n →
  stat dst s = Some (Dir dd) → dd !! item = None →
  move src item dst (mkWorld s []) =
    (inr (), mkWorld (write dst (Some (Dir (<[item:=n]> dd)))
                        (write src (Some (Dir (delete item sd))) s)) []).
Proof.
  intros Hsrc Hn Hdst Hd. unfold move, dir_of. unfold_M. simpl.
  by rewrite Hsrc, Hn, Hdst, Hd.
Qed.

Lemma for_each_move_quiet src dst items : ∀ s sd dd,
  src ≠ dst →
  stat src s = Some (Dir sd) → stat dst s = Some (Dir dd) →
  NoDup items →
  (∀ k, k ∈ items → is_Some (sd !! k)) →
  (∀ k, k ∈ items → dd !! k = None) →
  ∃ s', for_each items (λ item, move src item dst) (mkWorld s []) =
          (inr (), mkWorld s' []).
Proof.
  induction items as [|i rest IH]; intros s sd dd Hne Hsrc Hdst Hnd Hin Hout.
  - by exists s.
  - apply NoDup_cons in Hnd as [Hi Hnd].
    destruct (Hin i) as [n Hn]; [apply elem_of_cons; by left|].
    simpl. erewrite bind_run; [|apply (move_quiet _ _ _ _ sd dd n); auto].
    2:{ apply Hout, elem_of_cons. by left. }
    eapply (IH _ (delete i sd) (<[i:=n]> dd)); [done| | |done| |].
    + by rewrite stat_write_ne, stat_write_eq.
    + by rewrite stat_write_eq.
    + intros k Hk. rewrite lookup_delete_ne by (intros ->; done).
      apply Hin, elem_of_cons. by right.
    + intros k Hk. rewrite lookup_insert_ne by (intros ->; done).
      apply Hout, elem_of_cons. by right.
Qed.

Lemma listdir_quiet p s d :
  stat p s = Some (Dir d) →
  listdir p (mkWorld s []) = (inr (map_to_list d).*1, mkWorld s []).
Proof. intros H. unfold listdir. unfold_M. simpl. by rewrite H. Qed.

(** All the entries of [src] go to an empty [dst]. *)
Lemma move_all_quiet src dst s d :
  src ≠ dst →
  stat src s = Some (Dir d) → stat dst s = Some (Dir ∅) →
  for_each (map_to_list d).*1 (λ item, move src item dst) (mkWorld s []) =
    (inr (), mkWorld (write dst (Some (Dir d)) (write src (Some (Dir ∅)) s)) []).
Proof.
  intros Hne Hsrc Hdst.
  destruct (for_each_move_quiet src dst (map_to_list d).*1 s d ∅)
    as [s' H]; [done..|apply NoDup_names| | |].
  { intros k. by rewrite elem_of_names. }
  { intros k _. apply lookup_empty. }
  rewrite H. do 2 f_equal.
  eapply (for_each_move_ok src dst) in H as (sd' & dd' & Hw & _ & Hsd' & Hdd');
    [|done..].
  apply all_moved_out in Hsd'. apply all_moved_in in Hdd'. by subst.
Qed.

(** Without a fault, and with no file in the way at the backup path, steps
    3a to 3e run to their end. *)
Lemma swap_contents_quiet db_handle data backup new :
  (∀ c, backup ≠ Some (File c)) →
  swap_contents db_handle (mkWorld (mkFs (Some (Dir data)) backup (Some (Dir new))) []) =
    (inr (), mkWorld (mkFs (Some (Dir new)) None (Some (Dir ∅))) []).
Proof.
  intros Hbackup.
  set (s0 := mkFs (Some (Dir data)) backup (Some (Dir new))).
  set (s3 := mkFs (Some (Dir data)) (Some (Dir ∅)) (Some (Dir new))).
  set (s5 := mkFs (Some (Dir ∅)) (Some (Dir data)) (Some (Dir new))).
  assert (H3a : when db_handle (session_remove ;; engine_dispose) (mkWorld s0 []) =
                (inr (), mkWorld s0 [])) by by destruct db_handle.
  assert (H3b : (b ← path_exists backup_dir; when b (rmtree backup_dir)) (mkWorld s0 []) =
                (inr (), mkWorld (write backup_dir None s0) [])).
  { subst s0. destruct backup as [[c|d]|]; try reflexivity. by destruct (Hbackup c). }
  assert (Hmk : makedirs backup_dir (mkWorld (write backup_dir None s0) []) =
                (inr (), mkWorld s3 [])) by done.
  unfold swap_contents, move_to_backup, move_from_extracted.
  erewrite bind_run; [|].
  2:{ erewrite bind_run by exact H3a.
      erewrite bind_run by exact H3b.
      erewrite bind_run by exact Hmk.
      erewrite bind_run by (by apply (listdir_quiet DATA_DIR s3 data)).
      by apply (move_all_quiet DATA_DIR backup_dir s3 data). }
  change (write backup_dir (Some (Dir data)) (write DATA_DIR (Some (Dir ∅)) s3)) with s5.
  erewrite bind_run by (by apply (listdir_quiet extract_dir s5 new)).
  erewrite bind_run by (by apply (move_all_quiet extract_dir DATA_DIR s5 new)).
  reflexivity.
Qed.

Lemma extractall_valid zip w :
  corrupt_after zip = None →
  stat extract_dir (files w) = Some (Dir ∅) →
  try_except (extractall zip extract_dir) w =
    (inr (inr ()),
     mkWorld (write extract_dir (Some (Dir (content zip))) (files w)) (faults w)).
Proof.
  intros Hzip Hex. rewrite try_except_run. unfold extractall, dir_of. unfold_M.
  rewrite Hex, Hzip. simpl. by rewrite (right_id_L ∅ (∪)).
Qed.

(** *** The claims *)

(** C3. When the extraction of the archive fails, whatever it had written
    and whatever else fails, the data root and the backup path hold after
    the call what they held before, and the call does not report success:
    it returns the failure of the extraction (with the temporary directory
    removed) unless making or removing that directory itself raised. *)
Theorem restore_corrupt_archive_keeps_data_root zip db_handle data backup fl k :
  corrupt_after zip = Some k →
  let r := run_restore zip db_handle data backup fl in
  stat DATA_DIR (files r.2) = Some (Dir data) ∧
  stat backup_dir (files r.2) = backup ∧
  (∀ ok msg, r.1 = inr (ok, msg) → ok = false ∧ msg = ExtractFailed BadZipFile) ∧
  (true ∉ take 2 fl →
   r.1 = inr (false, ExtractFailed BadZipFile) ∧ stat extract_dir (files r.2) = None).
Proof.
  intros Hzip.
  unfold run_restore, restore_data_from_zip, mkdtemp, extractall, try_except,
    rmtree, path_exists, dir_of.
  unfold_M.
  destruct fl as [|[] [|[] fl]]; simpl; rewrite ?Hzip; simpl;
    (split_and!; [done|done|intros ok msg ?; by simplify_eq|intros Hq]);
    try done.
  all: exfalso; apply Hq; rewrite ?elem_of_cons; auto.
Qed.

(** C4. A call that returns success on a valid archive leaves in the data
    root exactly the top-level entries of the archive, with their subtrees,
    and nothing of what was there, and leaves neither the temporary
    extraction directory nor the backup directory behind. And the call does
    return success when nothing fails and no file stands at the backup
    path. *)
Theorem restore_success_swaps_contents zip db_handle data backup :
  (∀ fl msg w',
     corrupt_after zip = None →
     run_restore zip db_handle data backup fl = (inr (true, msg), w') →
     files w' = mkFs (Some (Dir (content zip))) None None) ∧
  (corrupt_after zip = None → (∀ c, backup ≠ Some (File c)) →
   run_restore zip db_handle data backup [] =
     (inr (true, Restored), mkWorld (mkFs (Some (Dir (content zip))) None None) [])).
Proof.
  split.
  - intros fl msg w' Hzip Hrun. unfold run_restore, restore_data_from_zip in Hrun.
    apply bind_ok in Hrun as ([] & w1 & Hmk & Hrun).
    apply mkdtemp_ok in Hmk. simpl in Hmk.
    erewrite bind_run in Hrun by (apply extractall_valid; by rewrite ?Hmk).
    unfold swap_or_roll_back in Hrun.
    apply try_finally_ok in Hrun as (w2 & Hbody & Hclean).
    apply bind_ok in Hbody as (swapped & w3 & Hswap & Hbody).
    rewrite try_except_run in Hswap. simplify_eq.
    destruct (swap_contents db_handle _) as [[e|[]] w3] eqn:Hswap; simpl in Hbody.
    { apply bind_ok in Hbody as ([e'|[]] & w4 & _ & Hbody); by simplify_eq. }
    unfold mret, M_ret, ret in Hbody. simplify_eq.
    eapply swap_contents_ok in Hswap; [|by rewrite Hmk].
    by eapply final_cleanup_ok.
  - intros Hzip Hbackup. unfold run_restore, restore_data_from_zip.
    erewrite bind_run by reflexivity.
    erewrite bind_run by (by apply extractall_valid). simpl.
    unfold swap_or_roll_back, try_finally.
    erewrite bind_run.
    2:{ rewrite try_except_run, swap_contents_quiet by done. reflexivity. }
    reflexivity.
Qed.

End FsFacts.
Module FsExamples.
Import Fs FsFacts Examples.

(** C1. The code does not keep what the claim says. With [X] and [Y] in the
    data root, the move of the second entry to the backup raises; every step
    after it succeeds; the call returns the failure that says the original
    data is preserved, and [X], which had not been moved yet, is gone from
    the data root: step 4a removed it with the new data. When closing the
    store raises, before anything is moved, all of the data root is gone. *)
Theorem restore_roll_back_deletes_unmoved_entries :
  run_restore zip_AB true data_XY None
      [false; false; false; false; false; false; true] =
    (inr (false, SwapFailed (EnvFault "move")),
     mkWorld (mkFs (Some (Dir {["Y" := Dir {["z" := File "zz"]}]})) None None) []) ∧
  run_restore zip_AB true data_XY None [false; true] =
    (inr (false, SwapFailed (EnvFault "session.remove")),
     mkWorld (mkFs (Some (Dir ∅)) None None) []).
Proof. split; vm_compute; reflexivity. Qed.

Lemma restore_corrupt_archive_keeps_data_root_witness :
  stat DATA_DIR (files (run_restore zip_cut true data_XY None [false; false]).2) =
    Some (Dir data_XY) ∧
  (run_restore zip_cut true data_XY None [false; false]).1 =
    inr (false, ExtractFailed BadZipFile).
Proof.
  destruct (restore_corrupt_archive_keeps_data_root
              zip_cut true data_XY None [false; false] 1 eq_refl)
    as (Hdata & _ & _ & Hreturned).
  split; [exact Hdata|]. apply Hreturned.
  simpl. rewrite !not_elem_of_cons. split_and!; [done|done|apply not_elem_of_nil].
Defined.

Lemma restore_success_swaps_contents_witness :
  run_restore zip_AB true data_XY None [] =
    (inr (true, Restored),
     mkWorld (mkFs (Some (Dir {["A" := File "a"; "B" := File "b"]})) None None) []).
Proof.
  apply (proj2 (restore_success_swaps_contents zip_AB true data_XY None)).
  - reflexivity.
  - intros c. discriminate.
Defined.

End FsExamples.

Module FsRollBack.
Import Fs FsFacts Examples.

(** *** A call that raises leaves the files as they were *)

Lemma fault_point_files site w r w' :
  fault_point site w = (r, w') → files w' = files w.
Proof.
  unfold fault_point. destruct (faults w) as [|[] rest]; intros H; by simplify_eq.
Qed.











(** [if os.path.exists(p): shutil.rmtree(p)] *)
Lemma remove_if_exists_ok p w w' :
  (b ← path_exists p; when b (rmtree p)) w = (inr (), w') →
  stat p (files w') = None ∧ ∀ q, q ≠ p → stat q (files w') = stat q (files w).
Proof.
  intros Hrun. apply bind_ok in Hrun as (b & w0 & Hex & Hrun).
  rewrite path_exists_run in Hex. simplify_eq.
  apply when_ok in Hrun. case_bool_decide as Hsome; simpl in Hrun.
  - apply rmtree_ok in Hrun as [_ ->]. split; [apply stat_write_eq|].
    intros q Hq. by rewrite stat_write_ne.
  - subst. split; [by apply eq_None_not_Some|done].
Qed.

(** A call that gets through the second [try] statement, whatever it
    returns, leaves neither the temporary extraction directory nor the
    backup directory. *)
Theorem swap_or_roll_back_leaves_no_temporary_directory db_handle w r w' :
  swap_or_roll_back db_handle w = (inr r, w') →
  stat extract_dir (files w') = None ∧ stat backup_dir (files w') = None.
Proof.
  intros Hrun. unfold swap_or_roll_back in Hrun.
  apply try_finally_ok in Hrun as (w1 & _ & Hclean). unfold final_cleanup in Hclean.
  apply bind_ok in Hclean as ([] & w2 & H5 & H6).
  apply remove_if_exists_ok in H5 as [Hextract _], H6 as [Hbackup Hframe].
  split; [|done]. by rewrite Hframe.
Qed.

Lemma swap_or_roll_back_leaves_no_temporary_directory_witness :
  stat extract_dir
    (files (swap_or_roll_back true
              (mkWorld (mkFs (Some (Dir data_XY)) (Some (Dir data_XY))
                          (Some (Dir (content zip_AB)))) [false; true])).2) = None ∧
  stat backup_dir
    (files (swap_or_roll_back true
              (mkWorld (mkFs (Some (Dir data_XY)) (Some (Dir data_XY))
                          (Some (Dir (content zip_AB)))) [false; true])).2) = None.
Proof.
  eapply (swap_or_roll_back_leaves_no_temporary_directory true
            (mkWorld (mkFs (Some (Dir data_XY)) (Some (Dir data_XY))
                        (Some (Dir (content zip_AB)))) [false; true])
            (false, SwapFailed (EnvFault "engine.dispose"))).
  vm_compute. reflexivity.
Defined.

End FsRollBack.
(** ** The document store *)

Module StoreFacts.
Import Store.

Lemma merge_key_object key req current_data :
  merge_key key (JObj req) current_data = Some (merge_keys req [key] current_data).
Proof.
  unfold merge_key, py_in, py_getitem. simpl.
  by destruct (req !! key) as [v|] eqn:Hk.
Qed.

Lemma merge_keys_cons req k keys current_data :
  merge_keys req (k :: keys) current_data =
    merge_keys req keys (merge_keys req [k] current_data).
Proof. done. Qed.

Lemma lookup_merge_keys req keys : ∀ current_data key,
  merge_keys req keys current_data !! key =
    if decide (key ∈ keys) then
      match req !! key with
      | Some v => Some v
      | None => current_data !! key
      end
    else current_data !! key.
Proof.
  induction keys as [|k keys IH]; intros current_data key.
  - done.
  - rewrite merge_keys_cons, IH. clear IH. unfold merge_keys. simpl foldl.
    destruct (decide (key = k)) as [->|Hne].
    + rewrite (decide_True (P := k ∈ k :: keys)) by (apply elem_of_cons; by left).
      destruct (req !! k) as [v|] eqn:Hk.
      * rewrite lookup_insert_eq. by case_decide.
      * by case_decide.
    + assert (key ∈ k :: keys ↔ key ∈ keys) as Hiff.
      { rewrite elem_of_cons. split; [by intros [?|?]|auto]. }
      destruct (req !! k) as [v|] eqn:Hk; rewrite ?lookup_insert_ne by done;
        destruct (decide (key ∈ keys)) as [Hin|Hin].
      all: first [ rewrite decide_True by (by apply Hiff)
                 | rewrite decide_False by (by rewrite Hiff) ]; done.
Qed.

(** C2. Saving an object merges into the stored payload exactly the keys of
    the request among [elements], [appState], [files] and [name]; every
    other key of the stored payload keeps its value, and a key of the
    request outside those four is not stored. In particular a request with
    [elements] alone leaves [appState], [files] and [name] as they were. *)
Theorem save_merges_present_recognized_keys db drawing_id drawing_data req :
  Excalidraw db !! drawing_id = Some drawing_data →
  ∃ saved,
    save_excalidraw_data drawing_id (JObj req) None db =
      (SaveSuccess, mkDb (<[drawing_id:=saved]> (Excalidraw db)) (instances db)) ∧
    (∀ key, key ∈ mergeable →
       saved !! key = match req !! key with
                      | Some v => Some v
                      | None => drawing_data !! key
                      end) ∧
    (∀ key, key ∉ mergeable → saved !! key = drawing_data !! key) ∧
    (∀ elements, req = {["elements" := elements]} →
       saved !! "elements" = Some elements ∧
       saved !! "appState" = drawing_data !! "appState" ∧
       saved !! "files" = drawing_data !! "files" ∧
       saved !! "name" = drawing_data !! "name").
Proof.
  intros Hrow. exists (merge_keys req mergeable drawing_data).
  split_and!.
  - unfold save_excalidraw_data. rewrite Hrow.
    repeat (rewrite merge_key_object; simpl). done.
  - intros key Hkey. by rewrite lookup_merge_keys, decide_True.
  - intros key Hkey. by rewrite lookup_merge_keys, decide_False.
  - intros elements ->.
    rewrite !lookup_merge_keys, !decide_True
      by (unfold mergeable; rewrite !elem_of_cons; auto 10).
    by simplify_map_eq.
Qed.

Lemma existsb_has_url url (l : list Instance) :
  existsb (has_url url) l = true ↔
  ∃ inst, inst ∈ l ∧ data inst !! "url" = Some (JStr url).
Proof.
  rewrite existsb_exists. split.
  - intros (inst & Hin & Hurl). exists inst. split; [by apply list_elem_of_In|].
    unfold has_url in Hurl. destruct (data inst !! "url") as [[| | |s| |]|]; try done.
    by apply String.eqb_eq in Hurl as ->.
  - intros (inst & Hin & Hurl). exists inst. split; [by apply list_elem_of_In|].
    unfold has_url. rewrite Hurl. apply String.eqb_refl.
Qed.

(** What [add_instance] answers to a request with both fields, when the
    store does not fail: a duplicate when a row has, as it is stored, the
    URL of the request without its trailing slashes; else a new row. *)
Lemma add_instance_answers db name url new_id :
  name ≠ "" → url ≠ "" →
  let r := add_instance (Some name) (Some url) new_id None db in
  let taken := ∃ inst, inst ∈ instances db ∧
                 data inst !! "url" = Some (JStr (rstrip_slash url)) in
  (taken ∧ r = (AlreadyExists (rstrip_slash url), db)) ∨
  (¬ taken ∧
   r = (Added, mkDb (Excalidraw db) (instances db ++ [new_row new_id name url]))).
Proof.
  intros Hname Hurl. simpl. unfold add_instance.
  rewrite (proj2 (String.eqb_neq _ _) Hname), (proj2 (String.eqb_neq _ _) Hurl). simpl.
  destruct (existsb _ _) eqn:Hex.
  - apply existsb_has_url in Hex. by left.
  - apply not_true_iff_false in Hex. rewrite existsb_has_url in Hex. by right.
Qed.

(** C6 (as the code has it). With a name and a URL given, and the store
    answering, [add_instance] turns the request down as a duplicate, leaving
    the store as it was, exactly when a stored instance has, as it is
    stored, the new URL without its trailing slashes; otherwise it stores a
    new instance under that URL. *)
Theorem add_instance_conflict_iff_stored_url db name url new_id :
  name ≠ "" → url ≠ "" →
  let r := add_instance (Some name) (Some url) new_id None db in
  let taken := ∃ inst, inst ∈ instances db ∧
                 data inst !! "url" = Some (JStr (rstrip_slash url)) in
  (r = (AlreadyExists (rstrip_slash url), db) ↔ taken) ∧
  (¬ taken →
   r = (Added, mkDb (Excalidraw db) (instances db ++ [new_row new_id name url]))).
Proof.
  intros Hname Hurl r taken.
  destruct (add_instance_answers db name url new_id Hname Hurl)
    as [[Htaken Hr]|[Hfree Hr]]; fold r in Hr; fold taken in Htaken || fold taken in Hfree.
  - split; [done|]. by intros [].
  - split; [|done]. rewrite Hr. split; [done|]. intros Htaken. by destruct Hfree.
Qed.
Lemma urls_unique_NoDup rows : urls_unique rows → NoDup (Instance_url <$> rows).
Proof.
  intros [Hstr Hnd].
  change Instance_url with (default (JStr "") ∘ url_field).
  rewrite list_fmap_compose. apply NoDup_fmap_2_strong; [|done].
  intros x y [i [-> Hi]]%list_elem_of_fmap [j [-> Hj]]%list_elem_of_fmap.
  rewrite Forall_forall in Hstr.
  destruct (Hstr _ Hi) as [u ->], (Hstr _ Hj) as [v ->]. simpl. congruence.
Qed.

Lemma urls_unique_sublist rows' rows :
  rows' `sublist_of` rows → urls_unique rows → urls_unique rows'.
Proof.
  intros Hsub [Hstr Hnd]. split.
  - rewrite Forall_forall in Hstr |- *. intros inst Hin.
    eapply Hstr, elem_of_sublist; done.
  - eapply sublist_NoDup; [done|]. by apply fmap_sublist.
Qed.

Lemma seed_loop_urls nodes uuid : ∀ count session count' session',
  seed_loop nodes uuid count session = Some (count', session') →
  url_field <$> session' =
    (url_field <$> session) ++ ((λ u, Some (JStr u)) <$> omap entry_url nodes).
Proof.
  induction nodes as [|node_data rest IH]; intros count session count' session' Hloop.
  - simpl in Hloop. simplify_eq. by rewrite app_nil_r.
  - simpl in Hloop. destruct node_data as [| | | | |o]; try done. simpl.
    destruct (truthy (default JNull (o !! "name")) && truthy (default JNull (o !! "url")))
      eqn:Hvalid.
    + destruct (o !! "url") as [[| | |url| |]|] eqn:Hurl; try done. simpl in Hloop.
      apply IH in Hloop. rewrite Hloop, fmap_app. simpl. by rewrite <- app_assoc.
    + by apply IH in Hloop.
Qed.

Lemma add_instance_urls_unique name url new_id fault db :
  urls_unique (instances db) →
  urls_unique (instances (add_instance name url new_id fault db).2).
Proof.
  intros Huniq. unfold add_instance.
  destruct name as [name|], url as [url|]; try done.
  destruct (_ || _); [done|].
  destruct fault as [[]|]; try done.
  all: destruct (existsb _ _) eqn:Hex; try done.
  simpl. apply not_true_iff_false in Hex. rewrite existsb_has_url in Hex.
  destruct Huniq as [Hstr Hnd]. split.
  - apply Forall_app. split; [done|]. apply Forall_singleton. by eexists.
  - rewrite fmap_app. apply NoDup_app. split_and!; [done| |apply NoDup_singleton].
    intros f (inst & -> & Hin)%list_elem_of_fmap Hnew%list_elem_of_singleton.
    apply Hex. exists inst. split; [done|]. exact Hnew.
Qed.

(** What [seed_nodes] does to the instance table: nothing, or, on an empty
    table, the rows of the loop over the manifest. *)
Lemma seed_nodes_cases nodes_file uuid fault db :
  seed_nodes nodes_file uuid fault db = db ∨
  ∃ predefined_nodes count session,
    nodes_file = Some (Some (JArr predefined_nodes)) ∧
    instances db = [] ∧ 0 < count ∧
    seed_loop predefined_nodes uuid 0 [] = Some (count, session) ∧
    seed_nodes nodes_file uuid fault db = mkDb (Excalidraw db) session.
Proof.
  unfold seed_nodes.
  destruct nodes_file as [file|]; [|by left].
  destruct fault as [[]|]; [by left| |].
  all: destruct (instances db) eqn:Hrows; [|by left].
  all: destruct file as [[| | | |predefined_nodes|]|]; try (by left).
  all: destruct (seed_loop _ _ _ _) as [[count session]|] eqn:Hloop; [|by left].
  all: case_bool_decide; [|by left]; try (by left).
  right. by exists predefined_nodes, count, session.
Qed.

Lemma seed_nodes_urls_unique nodes_file uuid fault db :
  distinct_urls nodes_file →
  urls_unique (instances db) →
  urls_unique (instances (seed_nodes nodes_file uuid fault db)).
Proof.
  intros Hdistinct Huniq.
  destruct (seed_nodes_cases nodes_file uuid fault db)
    as [->|(nodes & count & session & -> & _ & _ & Hloop & ->)]; [done|].
  apply seed_loop_urls in Hloop as Heq. simpl in *.
  split.
  - apply Forall_forall. intros inst Hin.
    assert (url_field inst ∈ (λ u, Some (JStr u)) <$> omap entry_url nodes) as Hf
      by (rewrite <- Heq; apply list_elem_of_fmap; eauto).
    apply list_elem_of_fmap in Hf as (u & -> & _); eauto.
  - rewrite Heq. apply NoDup_fmap_2; [|done]. by intros ?? [= ->].
Qed.

Lemma delete_instance_urls_unique instance_id fault db :
  urls_unique (instances db) →
  urls_unique (instances (delete_instance instance_id fault db)).
Proof.
  intros Huniq. unfold delete_instance. destruct fault as [[]|]; try done; simpl.
  all: eapply urls_unique_sublist; [apply sublist_filter|done].
Qed.

Lemma apply_op_urls_unique o db :
  seeds_distinct_urls o → urls_unique (instances db) →
  urls_unique (instances (apply_op db o)).
Proof.
  destruct o; simpl; intros Ho Hdb.
  - by apply add_instance_urls_unique.
  - by apply seed_nodes_urls_unique.
  - by apply delete_instance_urls_unique.
Qed.

(** C7. No two stored instances have the same URL in any state reached from
    the empty store by registrations, deletions and seedings, provided the
    entries of each manifest have different URLs (seeding does not compare
    them). *)
Theorem reachable_urls_unique ops :
  Forall seeds_distinct_urls ops →
  NoDup (Instance_url <$> instances (run_ops ops empty_db)).
Proof.
  intros Hops. apply urls_unique_NoDup. unfold run_ops.
  assert (urls_unique (instances empty_db)) as Hinit.
  { split; [apply Forall_nil_2|apply NoDup_nil_2]. }
  revert Hinit. generalize empty_db.
  induction Hops as [|o ops Ho Hops IH]; intros db Hdb; [done|].
  simpl. apply IH. by apply apply_op_urls_unique.
Qed.


(** *** Seeding runs on an empty table only *)

Lemma seed_nodes_non_empty nodes_file uuid fault db :
  instances db ≠ [] → seed_nodes nodes_file uuid fault db = db.
Proof.
  intros Hrows.
  destruct (seed_nodes_cases nodes_file uuid fault db)
    as [->|(nodes & count & session & _ & Hnil & _)]; done.
Qed.

Lemma seed_loop_count nodes uuid : ∀ count session count' session',
  seed_loop nodes uuid count session = Some (count', session') →
  length session' = length session + (count' - count) ∧ count ≤ count'.
Proof.
  induction nodes as [|node_data rest IH]; intros count session count' session' Hloop.
  - simpl in Hloop. simplify_eq. lia.
  - simpl in Hloop. repeat case_match; try done.
    all: apply IH in Hloop; rewrite ?length_app in Hloop; simpl in Hloop; lia.
Qed.

Lemma seed_loop_accepted nodes uuid : ∀ count session,
  Forall (λ node_data, is_Some (entry_url node_data)) nodes →
  ∃ session', seed_loop nodes uuid count session = Some (count + length nodes, session').
Proof.
  induction nodes as [|node_data rest IH]; intros count session Hvalid.
  - exists session. simpl. f_equal. f_equal. lia.
  - apply Forall_cons in Hvalid as [[u Hu] Hvalid]. simpl.
    destruct node_data as [| | | | |o]; try done. simpl in Hu.
    destruct (truthy _ && truthy _); [|done].
    destruct (o !! "url") as [[| | |url| |]|]; try done.
    replace (count + S (length rest)) with (S count + length rest) by lia.
    by apply IH.
Qed.

(** C10. Seeding leaves a table that is not empty as it is; so seeding a
    second time changes nothing, and after two runs on a manifest of three
    entries that seeding accepts the table holds three instances. *)
Theorem seed_nodes_idempotent nodes_file :
  (∀ uuid fault db,
     instances db ≠ [] → seed_nodes nodes_file uuid fault db = db) ∧
  (∀ uuid fault db,
     seed_nodes nodes_file uuid fault (seed_nodes nodes_file uuid fault db) =
     seed_nodes nodes_file uuid fault db) ∧
  (∀ a b c uuid uuid' fault',
     nodes_file = Some (Some (JArr [a; b; c])) →
     is_Some (entry_url a) → is_Some (entry_url b) → is_Some (entry_url c) →
     let seeded := seed_nodes nodes_file uuid None empty_db in
     length (instances seeded) = 3 ∧
     seed_nodes nodes_file uuid' fault' seeded = seeded).
Proof.
  assert (Hseeded : ∀ uuid db nodes count session,
            seed_loop nodes uuid 0 [] = Some (count, session) → 0 < count →
            ∀ uuid' fault',
              seed_nodes nodes_file uuid' fault' (mkDb (Excalidraw db) session) =
              mkDb (Excalidraw db) session).
  { intros uuid db nodes count session Hloop Hcount uuid' fault'.
    apply seed_nodes_non_empty. simpl.
    apply seed_loop_count in Hloop as [Hlen _]. destruct session; simpl in *; [lia|done]. }
  split_and!.
  - intros. by apply seed_nodes_non_empty.
  - intros uuid fault db.
    destruct (seed_nodes_cases nodes_file uuid fault db)
      as [Hsame|(nodes & count & session & _ & _ & Hcount & Hloop & ->)].
    + by rewrite !Hsame.
    + by eapply Hseeded.
  - intros a b c uuid uuid' fault' -> Ha Hb Hc seeded.
    destruct (seed_loop_accepted [a; b; c] uuid 0 []) as [session Hloop].
    { by repeat apply Forall_cons_2. }
    assert (seeded = mkDb ∅ session) as ->.
    { unfold seeded, seed_nodes. simpl instances. by rewrite Hloop. }
    split.
    + apply seed_loop_count in Hloop as [Hlen _]. simpl in *. lia.
    + eapply (Hseeded uuid empty_db); [done|simpl; lia].
Qed.

(** *** Stored URLs have no trailing slash *)

Lemma rstrip_slash_idemp url : rstrip_slash (rstrip_slash url) = rstrip_slash url.
Proof.
  induction url as [|c rest IH]; [done|]. simpl.
  destruct (rstrip_slash rest) as [|c' stripped] eqn:Hrest.
  - destruct (Ascii.eqb c "/") eqn:Hc; [done|]. simpl. by rewrite Hc.
  - simpl in *. by rewrite IH.
Qed.

Lemma seed_loop_normalized nodes :
  Forall (λ u, rstrip_slash u = u) (omap entry_url nodes).
Proof.
  induction nodes as [|node_data rest IH]; [done|]. simpl.
  destruct (entry_url node_data) as [u|] eqn:Hu; simpl; [|done].
  apply Forall_cons. split; [|done].
  destruct node_data as [| | | | |o]; try done. simpl in Hu.
  destruct (truthy _ && truthy _); [|done].
  destruct (o !! "url") as [[| | |url| |]|]; try done. simplify_eq.
  apply rstrip_slash_idemp.
Qed.

Lemma apply_op_urls_normalized o db :
  urls_normalized (instances db) → urls_normalized (instances (apply_op db o)).
Proof.
  unfold urls_normalized. intros Hdb. destruct o as [name url new_id fault| |]; simpl.
  - unfold add_instance. destruct name as [name|], url as [url|]; try done.
    destruct (_ || _); [done|].
    destruct fault as [[]|]; try done; destruct (existsb _ _); try done; simpl.
    apply Forall_app. split; [done|]. apply Forall_singleton.
    exists (rstrip_slash url). split; [done|]. apply rstrip_slash_idemp.
  - destruct (seed_nodes_cases nodes_file uuid fault db)
      as [->|(nodes & count & session & _ & _ & _ & Hloop & ->)]; [done|].
    apply seed_loop_urls in Hloop. simpl in *.
    apply Forall_forall. intros inst Hin.
    assert (url_field inst ∈ (λ u, Some (JStr u)) <$> omap entry_url nodes) as Hf
      by (rewrite <- Hloop; apply list_elem_of_fmap; eauto).
    apply list_elem_of_fmap in Hf as (u & -> & Hu). exists u. split; [done|].
    pose proof (seed_loop_normalized nodes) as Hnorm.
    rewrite Forall_forall in Hnorm. by apply Hnorm.
  - unfold delete_instance. destruct fault as [[]|]; try done; simpl.
    all: rewrite Forall_forall in Hdb |- *; intros inst Hin.
    all: apply list_elem_of_filter in Hin as [_ Hin]; by apply Hdb.
Qed.

Lemma reachable_urls_normalized ops :
  urls_normalized (instances (run_ops ops empty_db)).
Proof.
  unfold run_ops. induction ops as [|o ops IH] using rev_ind.
  - apply Forall_nil_2.
  - rewrite foldl_app. simpl. by apply apply_op_urls_normalized.
Qed.

(** In a state the operations of the program lead to from the empty store,
    where every stored URL was written without trailing slashes,
    [add_instance] turns a request down as a duplicate exactly when a stored
    URL equals the new one up to trailing slashes; so after [http://a/] and
    [http://b] were registered, [http://a] is turned down. *)
Theorem reachable_add_instance_conflict_iff ops name url new_id :
  name ≠ "" → url ≠ "" →
  let db := run_ops ops empty_db in
  add_instance (Some name) (Some url) new_id None db =
    (AlreadyExists (rstrip_slash url), db) ↔
  ∃ inst u, inst ∈ instances db ∧ url_field inst = Some (JStr u) ∧
            rstrip_slash u = rstrip_slash url.
Proof.
  intros Hname Hurl db.
  pose proof (reachable_urls_normalized ops) as Hnorm.
  fold db in Hnorm. unfold urls_normalized in Hnorm. rewrite Forall_forall in Hnorm.
  destruct (add_instance_answers db name url new_id Hname Hurl)
    as [[(inst & Hin & Hstored) ->]|[Hfree ->]].
  - split; [|done]. intros _. exists inst, (rstrip_slash url).
    split_and!; [done|done|apply rstrip_slash_idemp].
  - split; [done|]. intros (inst & u & Hin & Hstored & Heq). destruct Hfree.
    exists inst. split; [done|].
    destruct (Hnorm inst Hin) as (u' & Hu' & Hnormal).
    unfold url_field in *. rewrite Hstored in Hu'. simplify_eq. by rewrite <- Heq, Hnormal.
Qed.

End StoreFacts.

Module StoreExamples.
Import Store StoreFacts Examples.

Lemma save_merges_present_recognized_keys_witness :
  ∃ saved,
    save_excalidraw_data "d1"
      (JObj {["elements" := JArr [JNum 1]; "zoom" := JNum 2]}) None
      (mkDb {["d1" := drawing_1]} []) =
      (SaveSuccess, mkDb (<["d1":=saved]> {["d1" := drawing_1]}) []) ∧
    saved !! "zoom" = None ∧
    saved !! "elements" = Some (JArr [JNum 1]) ∧
    saved !! "name" = Some (JStr "Untitled").
Proof.
  assert (Excalidraw (mkDb {["d1" := drawing_1]} []) !! "d1" = Some drawing_1)
    as Hrow by reflexivity.
  destruct (save_merges_present_recognized_keys
              (mkDb {["d1" := drawing_1]} []) "d1" drawing_1
              {["elements" := JArr [JNum 1]; "zoom" := JNum 2]} Hrow)
    as (saved & Hsave & Hin & Hout & _).
  exists saved. split; [exact Hsave|]. split_and!.
  - rewrite Hout; [reflexivity|].
    unfold mergeable. rewrite !not_elem_of_cons.
    split_and!; [done..|apply not_elem_of_nil].
  - rewrite Hin; [reflexivity|]. unfold mergeable. rewrite !elem_of_cons. auto.
  - rewrite Hin; [reflexivity|]. unfold mergeable. rewrite !elem_of_cons. auto 10.
Defined.

(** The example of the claim C6: with the URLs [http://a/] and [http://b]
    in the table, [http://a] is added, not turned down. *)
Lemma add_instance_accepts_url_stored_with_slash :
  (∃ inst, inst ∈ instances db_a_slash_b ∧
           rstrip_slash <$> (match Instance_url inst with
                             | JStr u => Some u
                             | _ => None
                             end) = Some (rstrip_slash "http://a")) ∧
  add_instance (Some "a2") (Some "http://a") "3" None db_a_slash_b =
    (Added, mkDb ∅ (instances db_a_slash_b ++ [row "3" "a2" "http://a"])).
Proof.
  split; [|vm_compute; reflexivity].
  exists (row "1" "a" "http://a/"). split; [|vm_compute; reflexivity].
  unfold db_a_slash_b. simpl. apply elem_of_cons. by left.
Qed.

Lemma add_instance_conflict_iff_stored_url_witness :
  add_instance (Some "a2") (Some "http://a/") "3" None db_a_b =
    (AlreadyExists "http://a", db_a_b).
Proof.
  assert ("a2" ≠ "") as Hname by done.
  assert ("http://a/" ≠ "") as Hurl by done.
  apply (proj1 (add_instance_conflict_iff_stored_url db_a_b "a2" "http://a/" "3"
                  Hname Hurl)).
  exists (row "1" "a" "http://a"). split; [|reflexivity].
  unfold db_a_b. simpl. apply elem_of_cons. by left.
Defined.

(** The state C7 excludes: seeded from a manifest that names one instance
    twice, the table holds its URL twice. *)
Lemma seeding_stores_a_url_twice :
  Instance_url <$>
    instances (run_ops [SeedNodes (Some (Some manifest_a_twice)) uuid_of None] empty_db) =
  [JStr "http://a"; JStr "http://a"].
Proof. vm_compute. reflexivity. Qed.

Lemma reachable_urls_unique_witness :
  NoDup (Instance_url <$>
    instances (run_ops [SeedNodes (Some (Some manifest_abc)) uuid_of None;
                        AddInstance (Some "d") (Some "http://d/") "4" None;
                        AddInstance (Some "a") (Some "http://a//") "5" None;
                        DeleteInstance "uuid-1" None] empty_db)).
Proof.
  apply reachable_urls_unique.
  repeat apply Forall_cons_2; try exact I; [|apply Forall_nil_2].
  vm_compute.
  repeat (apply NoDup_cons_2;
          [rewrite ?not_elem_of_cons; split_and?; try done; apply not_elem_of_nil|]).
  apply NoDup_nil_2.
Defined.

Lemma seed_nodes_idempotent_witness :
  length (instances (seed_nodes (Some (Some manifest_abc)) uuid_of None empty_db)) = 3 ∧
  seed_nodes (Some (Some manifest_abc)) uuid_of None
    (seed_nodes (Some (Some manifest_abc)) uuid_of None empty_db) =
  seed_nodes (Some (Some manifest_abc)) uuid_of None empty_db.
Proof.
  apply (proj2 (proj2 (seed_nodes_idempotent (Some (Some manifest_abc))))
           (entry "a" "http://a") (entry "b" "http://b/") (entry "c" "http://c")
           uuid_of uuid_of None eq_refl); by eexists.
Defined.

Lemma reachable_add_instance_conflict_iff_witness :
  add_instance (Some "a2") (Some "http://a") "3" None
    (run_ops [AddInstance (Some "a") (Some "http://a/") "1" None;
              AddInstance (Some "b") (Some "http://b") "2" None] empty_db) =
  (AlreadyExists "http://a",
   run_ops [AddInstance (Some "a") (Some "http://a/") "1" None;
            AddInstance (Some "b") (Some "http://b") "2" None] empty_db).
Proof.
  assert ("a2" ≠ "") as Hname by done.
  assert ("http://a" ≠ "") as Hurl by done.
  apply (proj2 (reachable_add_instance_conflict_iff
                  [AddInstance (Some "a") (Some "http://a/") "1" None;
                   AddInstance (Some "b") (Some "http://b") "2" None]
                  "a2" "http://a" "3" Hname Hurl)).
  exists (row "1" "a" "http://a"), "http://a". split_and!; [|reflexivity..].
  vm_compute. apply elem_of_cons. by left.
Defined.

End StoreExamples.

Module PullFacts.
Import Store Pull.

Section WithStr.
Variable str : json → string.

Lemma run_pull_task_pending env instance_id :
  pending (_run_pull_task str env instance_id).
Proof.
  unfold _run_pull_task.
  destruct (list_find _ _) as [[? instance]|]; [|by right].
  destruct (env_fetched env); [simpl; auto|].
  destruct (negb _); [simpl; auto|].
  destruct (env_save_raises env); [simpl; auto|].
  destruct (env_restored env) as [?|[[] ?]]; simpl; auto 10.
Qed.

(** Whatever a pull meets, the task keeps the slot at [running] until its
    last assignment, which sets [success] or [error]: no pull leaves the
    slot at [running]. *)
Theorem run_pull_task_ends_in_success_or_error env instance_id :
  ∃ before final,
    _run_pull_task str env instance_id = before ++ [final] ∧
    Forall (λ w, status w = "running") before ∧
    (status final = "success" ∨ status final = "error").
Proof.
  pose proof (run_pull_task_pending env instance_id) as Hpending.
  induction (_run_pull_task str env instance_id) as [|w rest IH]; [done|].
  destruct rest as [|w' rest].
  - by exists [], w.
  - destruct Hpending as [Hw Hrest].
    destruct (IH Hrest) as (before & final & -> & Hbefore & Hfinal).
    exists (w :: before), final. split_and!; [done| |done]. by apply Forall_cons.
Qed.

Lemma start_pull_single_flight instance_id env s :
  single_flight s → single_flight (start_pull str instance_id env s).2.
Proof.
  intros Hs. unfold start_pull.
  destruct (String.eqb _ _) eqn:Hrunning; [done|]. simpl.
  apply String.eqb_neq in Hrunning.
  destruct Hs as [->|(t & _ & _ & Hr)]; [|done].
  right. eexists. split_and!; [done| |done]. apply run_pull_task_pending.
Qed.

Lemma thread_step_single_flight i s :
  single_flight s → single_flight (thread_step i s).
Proof.
  intros [Hnil|(t & Ht & Hpending & Hr)]; unfold thread_step.
  - by rewrite Hnil, lookup_nil; left.
  - rewrite Ht. destruct i as [|i]; simpl; [|right; eauto].
    destruct t as [|w [|w' rest]]; [done| |].
    + by left.
    + right. simpl in Hpending. destruct Hpending as [Hw Hrest].
      eexists. split_and!; [done|done|done].
Qed.

Lemma run_single_flight evs : single_flight (run str evs).
Proof.
  unfold run. induction evs as [|ev evs IH] using rev_ind; [by left|].
  rewrite foldl_app. simpl. destruct ev; simpl.
  - by apply start_pull_single_flight.
  - by apply thread_step_single_flight.
Qed.

(** C5. [start_pull] on a slot that says [running] starts no thread, leaves
    the slot as it is and answers that a pull is in progress; so at no time
    is there more than one thread, and of two calls in a row the second is
    turned down. *)
Theorem start_pull_single_flight_process :
  (∀ instance_id env s,
     status (pull_status s) = "running" →
     start_pull str instance_id env s = (AlreadyInProgress, s)) ∧
  (∀ evs, length (threads (run str evs)) ≤ 1) ∧
  (∀ id1 env1 id2 env2,
     let s1 := (start_pull str id1 env1 initial).2 in
     let r2 := start_pull str id2 env2 s1 in
     r2 = (AlreadyInProgress, s1) ∧ length (threads r2.2) = 1 ∧
     pull_status r2.2 = mkStatus "running" "Initializing pull...").
Proof.
  split_and!.
  - intros instance_id env s Hr. unfold start_pull. by rewrite Hr.
  - intros evs. destruct (run_single_flight evs) as [->|(t & -> & _)]; simpl; lia.
  - done.
Qed.

End WithStr.
End PullFacts.
Module PullExamples.
Import Store Pull PullFacts Examples.

(** A thread that is about to say what it pulls from, and a second request. *)
Lemma start_pull_single_flight_process_witness :
  start_pull str_of "2"
    (mkEnv db_a_b (Response "application/zip") None (inr (true, "done")))
    (mkState (mkStatus "running" "Initializing pull...")
       [_run_pull_task str_of
          (mkEnv db_a_b (RequestException "timed out") None (inl "")) "1"]) =
  (AlreadyInProgress,
   mkState (mkStatus "running" "Initializing pull...")
     [_run_pull_task str_of
        (mkEnv db_a_b (RequestException "timed out") None (inl "")) "1"]).
Proof.
  apply (proj1 (start_pull_single_flight_process str_of)). reflexivity.
Defined.

End PullExamples.

Module CollabFacts.
Import Store Collab.

Lemma dict_get_is_Some {V} k (d : dict V) : is_Some (dict_get k d) ↔ k ∈ d.*1.
Proof.
  induction d as [|[k' v] d IH]; simpl.
  - rewrite elem_of_nil. split; [by intros [? ?]|done].
  - rewrite elem_of_cons. case_decide; [naive_solver|]. rewrite IH. naive_solver.
Qed.

Lemma dict_get_pop {V} k (d : dict V) : dict_get k (dict_pop k d) = None.
Proof.
  apply eq_None_not_Some. rewrite dict_get_is_Some.
  intros [[k' v] [-> Hin]]%list_elem_of_fmap.
  by apply list_elem_of_filter in Hin as [Hne _].
Qed.

Lemma elem_of_values_pop {V} k (d : dict V) v :
  v ∈ dict_values (dict_pop k d) ↔ ∃ k', k' ≠ k ∧ (k', v) ∈ d.
Proof.
  unfold dict_values, dict_pop. rewrite list_elem_of_fmap. split.
  - intros [[k' v'] [-> [Hne Hin]%list_elem_of_filter]]. eauto.
  - intros (k' & Hne & Hin). exists (k', v). split; [done|].
    by apply list_elem_of_filter.
Qed.

Lemma dict_get_set {V} k (v : V) d : dict_get k (dict_set k v d) = Some v.
Proof.
  induction d as [|[k' v'] d IH]; simpl; [by rewrite decide_True|].
  case_decide; simpl; [by rewrite decide_True|by rewrite decide_False].
Qed.

Lemma elem_of_values_set {V} k (v : V) d : v ∈ dict_values (dict_set k v d).
Proof.
  unfold dict_values. apply list_elem_of_fmap. exists (k, v). split; [done|].
  induction d as [|[k' v'] d IH]; simpl; [by apply list_elem_of_singleton|].
  case_decide; apply elem_of_cons; auto.
Qed.

Lemma members_leave_room sid room s :
  members room (leave_room sid room s) = members room s ∖ {[sid]}.
Proof. unfold members, leave_room. simpl. by rewrite lookup_insert_eq. Qed.

Lemma members_join_room sid room room' s :
  members room' (join_room sid room s) =
    if decide (room = room') then {[sid]} ∪ members room s else members room' s.
Proof.
  unfold members, join_room. simpl. case_decide as Hr.
  - subst. by rewrite lookup_insert_eq.
  - by rewrite lookup_insert_ne.
Qed.

Section WithStr.
Variable str : json → string.

Lemma on_join_members sid room name data s s' out :
  py_getitem data "room" = Some room →
  py_getitem data "name" = Some name →
  on_join str sid data s = Some (s', out) →
  members (str room) s' = {[sid]} ∪ members (str room) s ∧ store s' = store s.
Proof.
  intros Hroom Hname Hjoin. unfold on_join in Hjoin.
  rewrite Hroom, Hname in Hjoin. simpl in Hjoin. simplify_eq. split; [|done].
  unfold members at 1. simpl. by rewrite lookup_insert_eq.
Qed.

(** [on_join] records the name of the connection under its room and sends
    the names of the room, the new one among them, to the members of the
    room, the new one among them; the document store stays as it was. *)
Theorem on_join_broadcasts_names s sid data room name :
  py_getitem data "room" = Some room →
  py_getitem data "name" = Some name →
  ∃ s' users names to,
    on_join str sid data s = Some (s', [mkEmit "room_users" (JArr names) to]) ∧
    dict_get (str room) (participants s') = Some users ∧
    dict_get sid users = Some name ∧
    names = dict_values users ∧ name ∈ names ∧
    to = members (str room) s' ∧ sid ∈ to ∧
    store s' = store s.
Proof.
  intros Hroom Hname. unfold on_join. rewrite Hroom, Hname. simpl.
  eexists _, _, _, _. split; [reflexivity|]. simpl. split_and!; try done.
  - apply dict_get_set.
  - apply dict_get_set.
  - apply elem_of_values_set.
  - unfold members. simpl. rewrite lookup_insert_eq. simpl. set_solver.
Qed.

(** C8. [update_scene] and [cursor_move] send the payload as it came to the
    connections of the room other than the sender, and change nothing on
    the server: neither [participants] nor the document store. Of three
    connections that joined a room, the two others receive what one sends. *)
Theorem scene_and_cursor_rebroadcast_to_others s sid data room :
  py_getitem data "room" = Some room →
  let to_others := members (str room) s ∖ {[sid]} in
  on_update_scene str sid data s = Some (s, [mkEmit "update_scene" data to_others]) ∧
  on_cursor_move str sid data s = Some (s, [mkEmit "cursor_move" data to_others]) ∧
  (sid ∉ to_others) ∧
  (∀ c, c ≠ sid → c ∈ members (str room) s → c ∈ to_others) ∧
  (∀ db a b c name_a name_b name_c sa sb sc out_a out_b out_c,
     a ≠ b → a ≠ c → b ≠ c →
     on_join str a (JObj {["room" := room; "name" := name_a]}) (fresh db) = Some (sa, out_a) →
     on_join str b (JObj {["room" := room; "name" := name_b]}) sa = Some (sb, out_b) →
     on_join str c (JObj {["room" := room; "name" := name_c]}) sb = Some (sc, out_c) →
     on_update_scene str a data sc = Some (sc, [mkEmit "update_scene" data {[b; c]}])).
Proof.
  intros Hroom to_others. unfold on_update_scene, on_cursor_move, emit.
  rewrite Hroom. simpl. split_and!; [done|done|set_solver|set_solver|].
  intros db a b c name_a name_b name_c sa sb sc out_a out_b out_c Hab Hac Hbc Ha Hb Hc.
  eapply on_join_members in Ha as [Ha _], Hb as [Hb _], Hc as [Hc _];
    try (by simplify_map_eq).
  do 4 f_equal. rewrite Hc, Hb, Ha. unfold members, fresh. simpl.
  rewrite lookup_empty. simpl. set_solver.
Qed.

End WithStr.

(** C9. [on_disconnect] takes the entry of the connection out of the first
    room of [participants] that has it and sends the names of the
    connections that remain there to the members of that room but the one
    that left; the store and the other rooms stay as they were. For a
    connection that no room has it changes and sends nothing, as after a
    first disconnect of a connection that was in one room only. *)
Theorem on_disconnect_removes_entry s sid :
  (∀ i room users,
     participants s !! i = Some (room, users) →
     is_Some (dict_get sid users) →
     (∀ j entry, participants s !! j = Some entry → j < i → dict_get sid entry.2 = None) →
     let remaining := dict_pop sid users in
     let s' := (on_disconnect sid s).1 in
     participants s' = <[i:=(room, remaining)]> (participants s) ∧
     store s' = store s ∧
     dict_get sid remaining = None ∧
     (∀ name, name ∈ dict_values remaining ↔ ∃ c, c ≠ sid ∧ (c, name) ∈ users) ∧
     (on_disconnect sid s).2 =
       [mkEmit "room_users" (JArr (dict_values remaining)) (members room s ∖ {[sid]})]) ∧
  ((∀ entry, entry ∈ participants s → dict_get sid entry.2 = None) →
   on_disconnect sid s = (s, [])) ∧
  ((∀ i j ei ej,
      participants s !! i = Some ei → participants s !! j = Some ej →
      is_Some (dict_get sid ei.2) → is_Some (dict_get sid ej.2) → i = j) →
   on_disconnect sid (on_disconnect sid s).1 = ((on_disconnect sid s).1, [])).
Proof.
  assert (Hnone : ∀ s0, (∀ entry, entry ∈ participants s0 → dict_get sid entry.2 = None) →
                        on_disconnect sid s0 = (s0, [])).
  { intros s0 Hno. unfold on_disconnect.
    destruct (list_find _ _) as [[i [room users]]|] eqn:Hfind; [|done].
    apply list_find_Some in Hfind as (Hi & Hsome & _).
    apply list_elem_of_lookup_2 in Hi. apply Hno in Hi. simpl in *.
    rewrite Hi in Hsome. by destruct Hsome. }
  assert (Hfirst : ∀ i room users,
     participants s !! i = Some (room, users) →
     is_Some (dict_get sid users) →
     (∀ j entry, participants s !! j = Some entry → j < i → dict_get sid entry.2 = None) →
     on_disconnect sid s =
       (leave_room sid room
          (mkServer (store s) (<[i:=(room, dict_pop sid users)]> (participants s)) (rooms s)),
        [mkEmit "room_users" (JArr (dict_values (dict_pop sid users)))
           (members room s ∖ {[sid]})])).
  { intros i room users Hi Hsome Hbefore. unfold on_disconnect.
    assert (list_find (λ entry : string * dict json, is_Some (dict_get sid entry.2))
              (participants s) = Some (i, (room, users))) as ->.
    { apply list_find_Some. split_and!; [done|done|].
      intros j entry Hj Hlt. rewrite (Hbefore j entry Hj Hlt). by intros [? ?]. }
    unfold emit. by rewrite members_leave_room. }
  split_and!.
  - intros i room users Hi Hsome Hbefore remaining s'. unfold s'.
    rewrite (Hfirst i room users Hi Hsome Hbefore). simpl. split_and!; try done.
    + apply dict_get_pop.
    + intros name. apply elem_of_values_pop.
  - apply Hnone.
  - intros Honce.
    destruct (list_find (λ entry : string * dict json, is_Some (dict_get sid entry.2))
                (participants s)) as [[i [room users]]|] eqn:Hfind.
    + apply list_find_Some in Hfind as (Hi & Hsome & Hbefore).
      rewrite (Hfirst i room users Hi Hsome).
      2:{ intros j entry Hj Hlt. apply eq_None_not_Some. by eapply Hbefore. }
      simpl. apply Hnone. unfold leave_room. simpl.
      intros entry [j Hj]%list_elem_of_lookup.
      destruct (decide (j = i)) as [->|Hne].
      * rewrite list_lookup_insert_eq in Hj by (by eapply lookup_lt_Some).
        simplify_eq. simpl. apply dict_get_pop.
      * rewrite list_lookup_insert_ne in Hj by done.
        apply eq_None_not_Some. intros Hj'. apply Hne.
        by eapply (Honce j i entry (room, users)).
    + assert (∀ entry, entry ∈ participants s → dict_get sid entry.2 = None) as Hno.
      { intros entry Hin. apply eq_None_not_Some.
        eapply list_find_None in Hfind. rewrite Forall_forall in Hfind. by apply Hfind. }
      rewrite (Hnone s Hno). simpl. by apply Hnone.
Qed.


End CollabFacts.
Module CollabExamples.
Import Store Collab CollabFacts Examples.

Lemma scene_and_cursor_rebroadcast_to_others_witness :
  on_update_scene str_of "A"
    (JObj {["room" := JStr "5"; "elements" := JArr []]}) two_bobs =
  Some (two_bobs,
        [mkEmit "update_scene" (JObj {["room" := JStr "5"; "elements" := JArr []]})
           (members "5" two_bobs ∖ {["A"]})]).
Proof.
  assert (py_getitem (JObj {["room" := JStr "5"; "elements" := JArr []]}) "room" =
          Some (JStr "5")) as Hroom by reflexivity.
  apply (proj1 (scene_and_cursor_rebroadcast_to_others str_of two_bobs "A"
                  (JObj {["room" := JStr "5"; "elements" := JArr []]}) (JStr "5") Hroom)).
Defined.

(** The state C9 excludes: [A] and [B] are both called bob; after [A] has
    disconnected, the list sent to the room still holds the name of [A]. *)
Lemma disconnect_keeps_shared_name :
  dict_get "A" [("A", JStr "bob"); ("B", JStr "bob")] = Some (JStr "bob") ∧
  (on_disconnect "A" two_bobs).2 =
    [mkEmit "room_users" (JArr [JStr "bob"]) {["B"]}] ∧
  JStr "bob" ∈ [JStr "bob"].
Proof.
  split_and!; [done| |by apply list_elem_of_singleton].
  vm_compute. reflexivity.
Qed.

Lemma on_disconnect_removes_entry_witness :
  on_disconnect "C" two_bobs = (two_bobs, []).
Proof.
  apply (proj1 (proj2 (on_disconnect_removes_entry two_bobs "C"))).
  intros entry Hin. unfold two_bobs in Hin. simpl in Hin.
  apply list_elem_of_singleton in Hin. by subst.
Defined.

Lemma on_join_broadcasts_names_witness :
  ∃ s' users names to,
    on_join str_of "C" (JObj {["room" := JStr "5"; "name" := JStr "carol"]}) two_bobs =
      Some (s', [mkEmit "room_users" (JArr names) to]) ∧
    dict_get "5" (participants s') = Some users ∧
    dict_get "C" users = Some (JStr "carol") ∧
    names = dict_values users ∧ JStr "carol" ∈ names ∧
    to = members "5" s' ∧ "C" ∈ to ∧
    store s' = store two_bobs.
Proof.
  apply (on_join_broadcasts_names str_of two_bobs "C"
           (JObj {["room" := JStr "5"; "name" := JStr "carol"]}) (JStr "5") (JStr "carol"));
    reflexivity.
Defined.

End CollabExamples.

(** ** More on the document store *)

Module StoreMore.
Import Store StoreFacts Routes Vocabulary.

Lemma database_eta db : mkDb (Excalidraw db) (instances db) = db.
Proof. by destruct db. Qed.

(** [key in json_data] then [json_data[key]], for a body that is no object:
    nothing to merge, or an exception. *)
Lemma merge_key_non_object key json_data current_data :
  (∀ o, json_data ≠ JObj o) →
  merge_key key json_data current_data = None ∨
  merge_key key json_data current_data = Some current_data.
Proof.
  intros Hobj. unfold merge_key.
  destruct json_data as [| | | s|l|o]; simpl; auto.
  - destruct (occurs_in key s); auto.
  - destruct (existsb (is_str key) l); auto.
  - by destruct (Hobj o).
Qed.

Lemma merge_keys_idemp req keys current_data :
  merge_keys req keys (merge_keys req keys current_data) =
  merge_keys req keys current_data.
Proof.
  apply map_eq. intros key. rewrite !lookup_merge_keys.
  case_decide; [|done]. by destruct (req !! key).
Qed.

(** What [save_excalidraw_data] answers and stores, by cases on the body. *)
Lemma save_cases drawing_id json_data fault db :
  save_excalidraw_data drawing_id json_data fault db = (SaveNotFound, db) ∧
    Excalidraw db !! drawing_id = None ∨
  save_excalidraw_data drawing_id json_data fault db = (SaveError, db) ∧
    is_Some (Excalidraw db !! drawing_id) ∨
  ∃ drawing_data saved,
    Excalidraw db !! drawing_id = Some drawing_data ∧ fault ≠ Some Commit ∧
    save_excalidraw_data drawing_id json_data fault db =
      (SaveSuccess, mkDb (<[drawing_id:=saved]> (Excalidraw db)) (instances db)) ∧
    match json_data with
    | JObj req => saved = merge_keys req mergeable drawing_data
    | _ => saved = drawing_data
    end.
Proof.
  unfold save_excalidraw_data.
  destruct (Excalidraw db !! drawing_id) as [drawing_data|] eqn:Hrow; [|by left].
  right.
  assert ((∃ req, json_data = JObj req) ∨ (∀ o, json_data ≠ JObj o))
    as [[req ->]|Hno] by (destruct json_data; eauto).
  - repeat (rewrite merge_key_object; simpl).
    destruct fault as [[]|]; [right|by left|right];
      exists drawing_data, (merge_keys req mergeable drawing_data); by split_and!.
  - assert (∀ key cur, merge_key key json_data cur = None ∨
                       merge_key key json_data cur = Some cur) as Hm
      by (intros; by apply merge_key_non_object).
    destruct (Hm "elements" drawing_data) as [->| ->]; simpl; [by left|].
    destruct (Hm "appState" drawing_data) as [->| ->]; simpl; [by left|].
    destruct (Hm "files" drawing_data) as [->| ->]; simpl; [by left|].
    destruct (Hm "name" drawing_data) as [->| ->]; simpl; [by left|].
    destruct fault as [[]|]; [right|by left|right];
      exists drawing_data, drawing_data; split_and!; try done;
      by destruct json_data; try done; destruct (Hno o).
Qed.

(** A save touches the drawing it names and nothing else, and stores
    nothing unless it answers success: an unknown drawing is a 404, a failing
    commit is rolled back. *)
Theorem save_touches_one_drawing_or_nothing drawing_id json_data fault db :
  let r := save_excalidraw_data drawing_id json_data fault db in
  instances r.2 = instances db ∧
  (∀ other, other ≠ drawing_id →
     get_excalidraw_data other r.2 = get_excalidraw_data other db) ∧
  (r.1 = SaveSuccess ∨ r.2 = db) ∧
  (get_excalidraw_data drawing_id db = None → r = (SaveNotFound, db)) ∧
  (fault = Some Commit → r.2 = db).
Proof.
  intros r. unfold r, get_excalidraw_data.
  destruct (save_cases drawing_id json_data fault db)
    as [[-> Hrow]|[[-> Hrow]|(drawing_data & saved & Hrow & Hfault & -> & _)]]; simpl.
  - split_and!; auto.
  - split_and!; auto. intros Hnone. rewrite Hnone in Hrow. by destruct Hrow.
  - split_and!; auto.
    + intros other Hother. by rewrite lookup_insert_ne.
    + by rewrite Hrow.
    + done.
Qed.

(** A body that is no JSON object never changes what is stored; a body that
    is [null], a boolean or a number is answered with the error. *)
Theorem save_non_object_stores_nothing drawing_id json_data fault db :
  (∀ o, json_data ≠ JObj o) →
  let r := save_excalidraw_data drawing_id json_data fault db in
  r.2 = db ∧
  (is_Some (get_excalidraw_data drawing_id db) →
   py_in "elements" json_data = None → r.1 = SaveError).
Proof.
  intros Hobj r. unfold r, get_excalidraw_data. split.
  - destruct (save_cases drawing_id json_data fault db)
      as [[-> Hrow]|[[-> Hrow]|(drawing_data & saved & Hrow & Hfault & -> & Hsaved)]];
      simpl; try done.
    destruct json_data; try (by destruct (Hobj o)); subst saved;
      by rewrite insert_id, database_eta.
  - intros [drawing_data Hrow] Hin. unfold save_excalidraw_data, merge_key.
    by rewrite Hrow, Hin.
Qed.

Lemma save_non_object_stores_nothing_witness :
  (save_excalidraw_data "d1" JNull None (mkDb {["d1" := Examples.drawing_1]} [])).2 =
    mkDb {["d1" := Examples.drawing_1]} [] ∧
  (save_excalidraw_data "d1" JNull None (mkDb {["d1" := Examples.drawing_1]} [])).1 =
    SaveError.
Proof.
  assert (∀ o, JNull ≠ JObj o) as Hobj by done.
  destruct (save_non_object_stores_nothing "d1" JNull None
              (mkDb {["d1" := Examples.drawing_1]} []) Hobj) as [Hdb Herr].
  split; [exact Hdb|]. apply Herr; [|reflexivity].
  exists Examples.drawing_1. reflexivity.
Defined.

(** Saving the same body again stores nothing new and answers the same. *)
Theorem save_twice_is_save_once drawing_id json_data fault db :
  save_excalidraw_data drawing_id json_data fault
    (save_excalidraw_data drawing_id json_data fault db).2 =
  save_excalidraw_data drawing_id json_data fault db.
Proof.
  destruct (save_cases drawing_id json_data fault db)
    as [[Hr Hrow]|[[Hr Hrow]|(drawing_data & saved & Hrow & Hfault & Hr & Hsaved)]];
    rewrite Hr; simpl; try done.
  set (db1 := mkDb (<[drawing_id:=saved]> (Excalidraw db)) (instances db)).
  destruct (save_cases drawing_id json_data fault db1)
    as [[_ Hrow1]|[[Hr1 _]|(drawing_data1 & saved1 & Hrow1 & _ & -> & Hsaved1)]].
  - simpl in Hrow1. by rewrite lookup_insert_eq in Hrow1.
  - exfalso. revert Hr Hr1. unfold save_excalidraw_data. rewrite Hrow. simpl.
    rewrite lookup_insert_eq.
    destruct json_data as [| | | s|l|req];
      try (unfold merge_key; simpl; by repeat case_match).
    repeat (rewrite merge_key_object; simpl). by destruct fault as [[]|].
  - simpl in Hrow1. rewrite lookup_insert_eq in Hrow1. simplify_eq. simpl.
    rewrite insert_insert_eq. do 3 f_equal.
    destruct json_data; subst; try done. apply merge_keys_idemp.
Qed.

(** A new drawing is stored under its identifier with the name of the form
    (or [Untitled]), the directory [/] and nothing drawn, beside the rows
    that were there; a first save of [elements] alone then keeps its name. A
    failing commit, or an identifier that is taken, stores nothing. *)
Theorem create_then_get_and_save name new_id fault db :
  let r := create_excalidraw name new_id fault db in
  (get_excalidraw_data new_id db = None → fault ≠ Some Commit →
   r.1 = Created new_id ∧
   instances r.2 = instances db ∧
   (∀ other, other ≠ new_id →
      get_excalidraw_data other r.2 = get_excalidraw_data other db) ∧
   ∃ drawing_data,
     get_excalidraw_data new_id r.2 = Some drawing_data ∧
     Excalidraw_name drawing_data = JStr (default "Untitled" name) ∧
     Excalidraw_directory drawing_data = JStr "/" ∧
     drawing_data !! "elements" = Some (JArr []) ∧
     drawing_data !! "appState" = Some (JObj ∅) ∧
     drawing_data !! "files" = Some (JObj ∅) ∧
     ∀ elements, ∃ saved,
       save_excalidraw_data new_id (JObj {["elements" := elements]}) None r.2 =
         (SaveSuccess, mkDb (<[new_id:=saved]> (Excalidraw r.2)) (instances db)) ∧
       saved = <["elements":=elements]> drawing_data) ∧
  ((is_Some (get_excalidraw_data new_id db) ∨ fault = Some Commit) →
   r = (CreateError, db)).
Proof.
  intros r. unfold r, create_excalidraw, get_excalidraw_data. split.
  - intros Hfree Hfault. rewrite Hfree.
    assert (match fault with
            | Some Commit => (CreateError, db)
            | _ => (Created new_id,
                    mkDb (<[new_id:={["name" := JStr (default "Untitled" name);
                                      "directory" := JStr "/"; "elements" := JArr [];
                                      "appState" := JObj ∅; "files" := JObj ∅]}]>
                            (Excalidraw db)) (instances db))
            end =
            (Created new_id,
             mkDb (<[new_id:={["name" := JStr (default "Untitled" name);
                               "directory" := JStr "/"; "elements" := JArr [];
                               "appState" := JObj ∅; "files" := JObj ∅]}]>
                     (Excalidraw db)) (instances db))) as ->
      by (by destruct fault as [[]|]).
    simpl. split_and!; try done.
    + intros other Hother. by rewrite lookup_insert_ne.
    + eexists. rewrite lookup_insert_eq. split_and!; try done.
      intros elements. eexists. split.
      * unfold save_excalidraw_data. simpl. rewrite lookup_insert_eq.
        repeat (rewrite merge_key_object; simpl). reflexivity.
      * unfold merge_keys, mergeable. simpl.
        rewrite lookup_singleton_eq.
        by rewrite !lookup_singleton_ne by done.
  - intros [[drawing_data Hrow]| ->].
    + rewrite Hrow. by destruct fault as [[]|].
    + done.
Qed.

Lemma create_then_get_and_save_witness :
  (create_excalidraw None "d2" None (mkDb ∅ [])).1 = Created "d2".
Proof.
  assert (@None db_call ≠ Some Commit) as Hfault by done.
  assert (get_excalidraw_data "d2" (mkDb ∅ []) = None) as Hfree by reflexivity.
  apply (proj1 (create_then_get_and_save None "d2" None (mkDb ∅ [])) Hfree Hfault).
Defined.

(** [add_instance] asks for both fields; it never touches the drawings, and
    stores nothing unless it answers that the instance is added, when it
    puts one row, under the URL without its trailing slashes, after the rows
    that were there. *)
Theorem add_instance_appends_or_stores_nothing name url new_id fault db :
  let r := add_instance name url new_id fault db in
  Excalidraw r.2 = Excalidraw db ∧
  (r.2 = db ∨
   ∃ n u, name = Some n ∧ url = Some u ∧ n ≠ "" ∧ u ≠ "" ∧ r.1 = Added ∧
          instances r.2 = instances db ++ [new_row new_id n u]) ∧
  (r.1 = Added → r.2 ≠ db) ∧
  ((name = None ∨ name = Some "" ∨ url = None ∨ url = Some "") → r = (Required, db)).
Proof.
  intros r. unfold r, add_instance.
  destruct name as [n|], url as [u|]; simpl;
    try (split_and!; [done|by left|done|done]).
  destruct (String.eqb n "") eqn:Hn; simpl; [split_and!; [done|by left|done|done]|].
  destruct (String.eqb u "") eqn:Hu; simpl; [split_and!; [done|by left|done|done]|].
  apply String.eqb_neq in Hn, Hu.
  assert (¬ (Some n = None ∨ Some n = Some "" ∨ Some u = None ∨ Some u = Some ""))
    as Hgiven by (intros [?|[?|[?|?]]]; by simplify_eq).
  destruct fault as [[]|]; try (split_and!; [done|by left|done|by intros ?]).
  all: destruct (existsb _ _); simpl;
    try (split_and!; [done|by left|done|by intros ?]).
  split_and!; [done| |intros _ Heq|by intros ?].
  - right. by exists n, u.
  - apply (f_equal (λ d, length (instances d))) in Heq. simpl in Heq.
    rewrite length_app in Heq. simpl in Heq. lia.
Qed.

(** The route that deletes an instance answers 404 for an identifier no row
    has, and else takes out the rows of that identifier and no other; so
    deleting an instance just added, under an identifier that was free, gives
    back the table as it was. *)
Theorem delete_instance_route_undoes_add instance_id fault db :
  ((∀ inst, inst ∈ instances db → id inst ≠ instance_id) →
   delete_instance_route instance_id fault db = (DeleteNotFound, db)) ∧
  (∀ inst, inst ∈ instances (delete_instance_route instance_id None db).2 ↔
           inst ∈ instances db ∧ id inst ≠ instance_id) ∧
  (∀ name url,
     (∀ inst, inst ∈ instances db → id inst ≠ instance_id) →
     (add_instance (Some name) (Some url) instance_id None db).1 = Added →
     delete_instance_route instance_id None
       (add_instance (Some name) (Some url) instance_id None db).2 =
     (Deleted (JStr name), db)).
Proof.
  assert (Hfree : ∀ rows : list Instance,
            (∀ inst, inst ∈ rows → id inst ≠ instance_id) →
            list_find (λ inst, id inst = instance_id) rows = None ∧
            filter (λ inst, id inst ≠ instance_id) rows = rows).
  { intros rows Hrows. split.
    - apply list_find_None. apply Forall_forall. intros inst Hin. by apply Hrows.
    - induction rows as [|inst rows IH]; [done|].
      rewrite filter_cons, decide_True by (apply Hrows, elem_of_cons; by left).
      f_equal. apply IH. intros inst' Hin. apply Hrows, elem_of_cons. by right. }
  split_and!.
  - intros Hrows. unfold delete_instance_route.
    by rewrite (proj1 (Hfree _ Hrows)).
  - intros inst. unfold delete_instance_route.
    destruct (list_find _ _) as [[i found]|] eqn:Hfind; simpl.
    + by rewrite list_elem_of_filter, (comm (∧)).
    + apply list_find_None in Hfind. rewrite Forall_forall in Hfind.
      split; [|by intros [? _]]. intros Hin. split; [done|]. by apply Hfind.
  - intros name url Hrows Hadded. unfold add_instance in *.
    destruct (String.eqb name "" || String.eqb url ""); [done|].
    destruct (existsb _ _); [done|]. simpl. unfold delete_instance_route. simpl.
    fold (new_row instance_id name url).
    assert (list_find (λ inst, id inst = instance_id)
              (instances db ++ [new_row instance_id name url]) =
            Some (length (instances db), new_row instance_id name url)) as ->.
    { apply list_find_Some. split_and!.
      - by rewrite lookup_app_r, Nat.sub_diag.
      - done.
      - intros j inst Hj Hlt. rewrite lookup_app_l in Hj by done.
        apply Hrows. by eapply list_elem_of_lookup_2. }
    unfold delete_instance. simpl. f_equal.
    rewrite filter_app, (proj2 (Hfree _ Hrows)), filter_cons, decide_False
      by (by intros []).
    rewrite filter_nil, app_nil_r. apply database_eta.
Qed.

Lemma delete_instance_route_undoes_add_witness :
  delete_instance_route "3" None
    (add_instance (Some "c") (Some "http://c/") "3" None Examples.db_a_b).2 =
  (Deleted (JStr "c"), Examples.db_a_b).
Proof.
  apply (proj2 (proj2 (delete_instance_route_undoes_add "3" None Examples.db_a_b))).
  - intros inst Hin. unfold Examples.db_a_b in Hin. simpl in Hin.
    rewrite !elem_of_cons, elem_of_nil in Hin. by destruct Hin as [->|[->|[]]].
  - reflexivity.
Defined.

(** *** Seeding *)

Lemma seed_loop_raises nodes uuid : ∀ count session,
  Exists (λ node_data, entry_raises node_data = true) nodes →
  seed_loop nodes uuid count session = None.
Proof.
  induction nodes as [|node_data rest IH]; intros count session Hraises.
  - by apply Exists_nil in Hraises.
  - apply Exists_cons in Hraises. simpl.
    destruct node_data as [| | | | |o]; try done. simpl in Hraises.
    destruct (truthy _ && truthy _) eqn:Hvalid; simpl in Hraises.
    + destruct (o !! "url") as [[| | |url| |]|]; try done.
      destruct Hraises as [?|Hrest]; [done|]. by apply IH.
    + destruct Hraises as [?|Hrest]; [done|]. by apply IH.
Qed.

Lemma omap_accepted_cons node_data rest :
  omap accepted_entry (node_data :: rest) =
    match accepted_entry node_data with
    | Some entry => entry :: omap accepted_entry rest
    | None => omap accepted_entry rest
    end.
Proof. done. Qed.

Lemma seed_loop_accepts nodes uuid : ∀ count session,
  Forall (λ node_data, entry_raises node_data = false) nodes →
  seed_loop nodes uuid count session =
    Some (count + length (omap accepted_entry nodes),
          session ++ imap (λ i, seeded_row uuid (count + i)) (omap accepted_entry nodes)).
Proof.
  induction nodes as [|node_data rest IH]; intros count session Hok.
  - simpl. by rewrite Nat.add_0_r, app_nil_r.
  - apply Forall_cons in Hok as [Hhere Hok].
    rewrite omap_accepted_cons. simpl seed_loop.
    destruct node_data as [| | | | |o]; try done.
    unfold entry_raises in Hhere.
    destruct (truthy _ && truthy _) eqn:Hvalid; simpl in Hhere.
    + destruct (o !! "url") as [[| | |url| |]|] eqn:Hurl; try done.
      assert (accepted_entry (JObj o) =
              Some (default JNull (o !! "name"), rstrip_slash url)) as ->
        by (unfold accepted_entry; by rewrite Hurl, Hvalid).
      simpl. rewrite IH by done. rewrite <- app_assoc. simpl.
      rewrite Nat.add_0_r, Nat.add_succ_r. do 3 f_equal. f_equal.
      apply imap_ext. intros i entry _. simpl. f_equal. lia.
    + assert (accepted_entry (JObj o) = None) as ->
        by (unfold accepted_entry; by rewrite Hvalid).
      simpl. by rewrite IH.
Qed.

(** Seeding is all or nothing. One entry of the manifest on which the loop
    raises (an entry that is no object, a truthy [url] that is no string)
    and nothing is stored, whatever the other entries are; without such an
    entry the table gets, in the order of the manifest, a row for every
    entry with a truthy [name] and a non-empty [url], under that name and
    the URL without its trailing slashes, and the others are passed over. *)
Theorem seed_nodes_all_or_nothing nodes uuid :
  (Exists (λ node_data, entry_raises node_data = true) nodes →
   ∀ fault db, seed_nodes (Some (Some (JArr nodes))) uuid fault db = db) ∧
  (Forall (λ node_data, entry_raises node_data = false) nodes →
   instances (seed_nodes (Some (Some (JArr nodes))) uuid None empty_db) =
     imap (seeded_row uuid) (omap accepted_entry nodes)).
Proof.
  split.
  - intros Hraises fault db. unfold seed_nodes.
    rewrite (seed_loop_raises _ _ _ _ Hraises). by repeat case_match.
  - intros Hok. unfold seed_nodes. simpl.
    rewrite (seed_loop_accepts _ _ _ _ Hok). simpl.
    destruct (omap accepted_entry nodes) as [|entry entries]; [done|].
    by rewrite bool_decide_eq_true_2 by (simpl; lia).
Qed.

Lemma seed_nodes_all_or_nothing_witness :
  seed_nodes (Some (Some (JArr [Examples.entry "a" "http://a"; JStr "http://b"])))
    Examples.uuid_of None empty_db = empty_db.
Proof.
  apply (proj1 (seed_nodes_all_or_nothing
                  [Examples.entry "a" "http://a"; JStr "http://b"] Examples.uuid_of)).
  apply Exists_cons. right. apply Exists_cons. by left.
Defined.

(** *** [rstrip] *)

Lemma rstrip_slash_no_trailing_slash url : ∀ s, rstrip_slash url ≠ s +:+ "/".
Proof.
  induction url as [|c rest IH]; intros s; simpl.
  - by destruct s.
  - destruct (rstrip_slash rest) as [|c' stripped] eqn:Hrest.
    + destruct (Ascii.eqb c "/") eqn:Hc.
      * by destruct s.
      * destruct s as [|c0 [|c1 s]]; simpl; try done.
        intros [= ->]. by rewrite Ascii.eqb_refl in Hc.
    + destruct s as [|c0 s]; simpl; [done|]. intros [= -> Heq]. by apply (IH s).
Qed.

Lemma rstrip_slash_slashes url :
  ∃ n, url = rstrip_slash url +:+ slashes n.
Proof.
  induction url as [|c rest [n IH]]; simpl.
  - by exists 0.
  - destruct (rstrip_slash rest) as [|c' stripped] eqn:Hrest.
    + destruct (Ascii.eqb c "/") eqn:Hc.
      * apply Ascii.eqb_eq in Hc as ->. exists (S n). simpl. by rewrite IH at 1.
      * exists n. simpl. by rewrite IH at 1.
    + exists n. simpl. simpl in IH. by rewrite IH at 1.
Qed.

Lemma append_empty_r (s : string) : s +:+ "" = s.
Proof.
  induction s as [|c s IH]; [done|].
  change (String c s +:+ "") with (String c (s +:+ "")). by rewrite IH.
Qed.

Lemma append_slashes_S (s : string) n :
  s +:+ slashes (S n) = (s +:+ slashes n) +:+ "/".
Proof.
  induction s as [|c s IH].
  - change ("" +:+ slashes (S n)) with (slashes (S n)).
    change ("" +:+ slashes n) with (slashes n).
    induction n as [|n IHn]; [done|].
    change (slashes (S (S n))) with (String "/" (slashes (S n))).
    rewrite IHn at 1. reflexivity.
  - change (String c s +:+ slashes (S n)) with (String c (s +:+ slashes (S n))).
    rewrite IH. done.
Qed.

Lemma rstrip_slash_unchanged url :
  (∀ s, url ≠ s +:+ "/") → rstrip_slash url = url.
Proof.
  intros Hno. destruct (rstrip_slash_slashes url) as [[|n] Hn].
  - simpl in Hn. by rewrite append_empty_r in Hn.
  - rewrite append_slashes_S in Hn. by destruct (Hno _ Hn).
Qed.

Lemma rstrip_slash_only_slashes n : rstrip_slash (slashes n) = "".
Proof. induction n as [|n IH]; [done|]. simpl. by rewrite IH. Qed.

(** The URL [add_instance] stores is the URL of the form without the
    slashes at its end, and nothing else is changed in it: the URL of the
    form is the stored one followed by slashes, the stored one does not end
    with a slash, and a URL that ends with none is stored as it is. A URL
    of slashes only passes the check of the required fields and is stored as
    the empty string. *)
Theorem add_instance_stores_url_without_trailing_slashes name url new_id fault db :
  (add_instance (Some name) (Some url) new_id fault db).1 = Added →
  ∃ stored n,
    instances (add_instance (Some name) (Some url) new_id fault db).2 =
      instances db ++
      [mkInstance new_id (<["name":=JStr name]> (<["url":=JStr stored]> ∅))] ∧
    url = stored +:+ slashes n ∧
    (∀ s, stored ≠ s +:+ "/") ∧
    ((∀ s, url ≠ s +:+ "/") → stored = url) ∧
    (∀ k, url = slashes k → stored = "").
Proof.
  intros Hadded.
  destruct (rstrip_slash_slashes url) as [n Hn].
  exists (rstrip_slash url), n. split_and!.
  - revert Hadded. unfold add_instance.
    destruct (String.eqb name "" || String.eqb url ""); [done|].
    destruct fault as [[]|]; try done; by destruct (existsb _ _).
  - done.
  - apply rstrip_slash_no_trailing_slash.
  - apply rstrip_slash_unchanged.
  - intros k ->. apply rstrip_slash_only_slashes.
Qed.

Lemma add_instance_stores_url_without_trailing_slashes_witness :
  ∃ stored n,
    instances (add_instance (Some "c") (Some "http://c//") "3" None Examples.db_a_b).2 =
      instances Examples.db_a_b ++
      [mkInstance "3" (<["name":=JStr "c"]> (<["url":=JStr stored]> ∅))] ∧
    "http://c//" = stored +:+ slashes n ∧
    (∀ s, stored ≠ s +:+ "/") ∧
    ((∀ s, "http://c//" ≠ s +:+ "/") → stored = "http://c//") ∧
    (∀ k, "http://c//" = slashes k → stored = "").
Proof.
  apply (add_instance_stores_url_without_trailing_slashes
           "c" "http://c//" "3" None Examples.db_a_b).
  reflexivity.
Defined.

End StoreMore.
(** ** Export and import of the data root *)

Module FsMore.
Import Fs FsFacts Routes Vocabulary.

(** *** [endswith] *)

Lemma append_cons c (s t : string) : String c s +:+ t = String c (s +:+ t).
Proof. reflexivity. Qed.

Lemma length_append (s t : string) :
  String.length (s +:+ t) = String.length s + String.length t.
Proof.
  induction s as [|c s IH]; [done|]. rewrite append_cons. simpl. by rewrite IH.
Qed.

Lemma substring_full (s : string) : String.substring 0 (String.length s) s = s.
Proof. induction s as [|c s IH]; [done|]. simpl. by rewrite IH. Qed.

Lemma substring_append (p suffix : string) :
  String.substring (String.length p) (String.length suffix) (p +:+ suffix) = suffix.
Proof.
  induction p as [|c p IH]; [apply substring_full|]. by rewrite append_cons.
Qed.

Lemma substring_split n : ∀ s : string,
  n ≤ String.length s →
  s = String.substring 0 n s +:+ String.substring n (String.length s - n) s.
Proof.
  induction n as [|n IH]; intros s Hn.
  - rewrite Nat.sub_0_r, substring_full. by destruct s.
  - destruct s as [|c s]; simpl in Hn; [lia|].
    simpl. rewrite append_cons. f_equal. apply IH. lia.
Qed.

Lemma endswith_spec s suffix : endswith s suffix = true ↔ ∃ p, s = p +:+ suffix.
Proof.
  unfold endswith. rewrite andb_true_iff, bool_decide_eq_true, String.eqb_eq. split.
  - intros [Hlen Hsub].
    exists (String.substring 0 (String.length s - String.length suffix) s).
    etrans; [apply (substring_split (String.length s - String.length suffix)); lia|].
    f_equal.
    replace (String.length s - (String.length s - String.length suffix))
      with (String.length suffix) by lia.
    exact Hsub.
  - intros [p ->]. rewrite length_append. split; [lia|].
    replace (String.length p + String.length suffix - String.length suffix)
      with (String.length p) by lia.
    apply substring_append.
Qed.

(** *** [export_data] *)


(** *** [restore_data_from_zip] when nothing fails *)


(** The restore runs for an upload whose file name ends with [.zip], in
    lower case, and for no other: without a file, or with a file without a
    name, the answer is that no file is selected; a name that does not end
    with [.zip] is an invalid file type; in both cases nothing is touched,
    whatever was uploaded. *)
Theorem import_data_restores_zip_files_only w :
  (∀ file, (file = None ∨ ∃ zip, file = Some ("", zip)) →
           import_data file w = (inr [NoFileSelected], w)) ∧
  (∀ filename zip,
     filename ≠ "" → (∀ p, filename ≠ p +:+ ".zip") →
     import_data (Some (filename, zip)) w = (inr [InvalidFileType], w)) ∧
  (∀ p zip,
     import_data (Some (p +:+ ".zip", zip)) w =
       flashes_of (restore_data_from_zip zip true w)) ∧
  (∀ zip, import_data (Some ("DATA.ZIP", zip)) w = (inr [InvalidFileType], w)).
Proof.
  split_and!.
  - by intros file [->|[zip ->]].
  - intros filename zip Hname Hzip. unfold import_data.
    apply String.eqb_neq in Hname as ->.
    destruct (endswith filename ".zip") eqn:Hends; [|done].
    apply endswith_spec in Hends as [p ->]. by destruct (Hzip p).
  - intros p zip. unfold import_data.
    assert (String.eqb (p +:+ ".zip") "" = false) as ->.
    { apply String.eqb_neq. intros Hempty.
      apply (f_equal String.length) in Hempty. rewrite length_append in Hempty.
      simpl in Hempty. lia. }
    assert (endswith (p +:+ ".zip") ".zip" = true) as ->
      by (apply endswith_spec; by exists p).
    simpl. unfold flashes_of. unfold_M.
    destruct (restore_data_from_zip zip true w) as [[e|[[] msg]] w']; done.
  - done.
Qed.

Lemma import_data_restores_zip_files_only_witness :
  import_data (Some ("data.tar", Examples.zip_AB))
    (mkWorld (mkFs (Some (Dir Examples.data_XY)) None None) []) =
  (inr [InvalidFileType], mkWorld (mkFs (Some (Dir Examples.data_XY)) None None) []).
Proof.
  apply (proj1 (proj2 (import_data_restores_zip_files_only
                         (mkWorld (mkFs (Some (Dir Examples.data_XY)) None None) [])))).
  - done.
  - intros p. do 9 (destruct p as [|? p]; try done).
Defined.



(** *** What [restore_data_from_zip] raises *)

(** [if os.path.exists(p): shutil.rmtree(p)] *)
Lemma remove_if_exists_raised p w e w' :
  (b ← path_exists p; when b (rmtree p)) w = (inl e, w') →
  e = EnvFault "rmtree" ∨ e = NotADirectoryError.
Proof.
  intros Hrun. apply bind_raised in Hrun as [Hex|(b & w0 & Hex & Hrun)];
    rewrite path_exists_run in Hex; simplify_eq.
  revert Hrun. case_bool_decide as Hsome; unfold when, rmtree; unfold_M; [|done].
  destruct Hsome as [n Hn].
  destruct (faults _) as [|[] rest]; simpl; rewrite ?Hn;
    destruct n; intros; simplify_eq; auto.
Qed.

(** The body of the second [try] statement, with its handler, returns. *)
Lemma swap_and_handler_return db_handle w :
  ∃ r w',
    (swapped ← try_except (swap_contents db_handle);
     match swapped with
     | inr _ => mret (true, Restored)
     | inl e =>
       restored ← try_except restore_backup;
       match restored with
       | inl restore_e => mret (false, Critical e restore_e)
       | inr _ => mret (false, SwapFailed e)
       end
     end) w = (inr r, w').
Proof.
  erewrite bind_run by apply try_except_run.
  destruct (swap_contents db_handle w).1 as [e|[]]; [|by eexists _, _].
  erewrite bind_run by apply try_except_run.
  destruct (restore_backup _).1 as [restore_e|[]]; by eexists _, _.
Qed.

(** [restore_data_from_zip] raises for no archive and for no failure of the
    swap or of the recovery: those are returned as a failure. What it raises
    is what making the temporary directory or removing a temporary
    directory raised, outside of the [try] blocks and in the [finally]
    clause. *)
Theorem restore_raises_only_at_temporary_directories zip db_handle w e w' :
  restore_data_from_zip zip db_handle w = (inl e, w') →
  e = EnvFault "mkdtemp" ∨ e = EnvFault "rmtree" ∨ e = NotADirectoryError.
Proof.
  intros Hrun. unfold restore_data_from_zip in Hrun.
  apply bind_raised in Hrun as [Hmk|([] & w1 & _ & Hrun)].
  { left. revert Hmk. unfold mkdtemp. unfold_M.
    destruct (faults w) as [|[] rest]; simpl; intros; by simplify_eq. }
  right.
  apply bind_raised in Hrun as [Hex|(extracted & w2 & _ & Hrun)].
  { by rewrite try_except_run in Hex. }
  destruct extracted as [e0|[]].
  - apply bind_raised in Hrun as [Hclean|([] & w3 & _ & Hret)]; [|done].
    by apply remove_if_exists_raised in Hclean.
  - unfold swap_or_roll_back, try_finally in Hrun.
    destruct (swap_and_handler_return db_handle w2) as (r & w3 & Hbody).
    rewrite Hbody in Hrun.
    destruct (final_cleanup w3) as [[e1|[]] w4] eqn:Hclean; simplify_eq.
    unfold final_cleanup in Hclean.
    apply bind_raised in Hclean as [Hclean|([] & w5 & _ & Hclean)];
      by apply remove_if_exists_raised in Hclean.
Qed.

Lemma restore_raises_only_at_temporary_directories_witness :
  EnvFault "rmtree" = EnvFault "mkdtemp" ∨
  EnvFault "rmtree" = EnvFault "rmtree" ∨ EnvFault "rmtree" = NotADirectoryError.
Proof.
  apply (restore_raises_only_at_temporary_directories Examples.zip_cut true
           (mkWorld (mkFs (Some (Dir Examples.data_XY)) None None) [false; true])
           (EnvFault "rmtree")
           (mkWorld (mkFs (Some (Dir Examples.data_XY)) None
                       (Some (Dir {["A" := File "a"]}))) [])).
  vm_compute. reflexivity.
Defined.

End FsMore.
(** ** More on the pull *)

Module PullMore.
Import Fs FsFacts FsMore Store Routes Pull PullFacts PullRun.

Section WithText.
Variable str : json → string.
Variable exn_text : exn → string.

Lemma run_pull_task_length env instance_id :
  length (_run_pull_task str env instance_id) ≤ 4.
Proof.
  unfold _run_pull_task.
  destruct (list_find _ _) as [[? instance]|]; [|simpl; lia].
  destruct (env_fetched env); [simpl; lia|].
  destruct (negb _); [simpl; lia|].
  destruct (env_save_raises env); [simpl; lia|].
  destruct (env_restored env) as [?|[[] ?]]; simpl; lia.
Qed.

(** [run_pull_task_on] makes the assignments of [_run_pull_task]. *)
Lemma run_pull_task_on_statuses db instance_id remote save_raises w :
  (run_pull_task_on str exn_text db instance_id remote save_raises w).1 =
    _run_pull_task str (env_of exn_text db remote save_raises w) instance_id.
Proof.
  unfold run_pull_task_on, _run_pull_task. simpl.
  destruct (list_find _ _) as [[? instance]|]; [|done].
  destruct remote as [e|content_type content]; [done|]. simpl.
  destruct (negb _); [done|].
  destruct save_raises; [done|].
  by destruct (restore_data_from_zip content true w) as [[e|[[] msg]] w'].
Qed.

(** The slot and the threads, with a bound on what a thread has left. *)
Lemma start_pull_tracks instance_id env s :
  slot_tracks_thread s ∧ Forall (λ t, length t ≤ 4) (threads s) →
  slot_tracks_thread (start_pull str instance_id env s).2 ∧
  Forall (λ t, length t ≤ 4) (threads (start_pull str instance_id env s).2).
Proof.
  intros [Hs Hlen]. unfold start_pull.
  destruct (String.eqb _ _) eqn:Hrunning; [done|]. simpl.
  apply String.eqb_neq in Hrunning.
  destruct Hs as [[Hnil _]|(t & _ & _ & Hr)]; [|done].
  rewrite Hnil. simpl. split.
  - right. eexists. split_and!; [done| |done]. apply run_pull_task_pending.
  - apply Forall_singleton, run_pull_task_length.
Qed.

Lemma thread_step_tracks i s :
  slot_tracks_thread s ∧ Forall (λ t, length t ≤ 4) (threads s) →
  slot_tracks_thread (thread_step i s) ∧
  Forall (λ t, length t ≤ 4) (threads (thread_step i s)).
Proof.
  intros [[[Hnil Hidle]|(t & Ht & Hpending & Hr)] Hlen]; unfold thread_step.
  - rewrite Hnil, lookup_nil. simpl. split; [by left|done].
  - rewrite Ht. destruct i as [|i]; simpl; [|split; [right; eauto|done]].
    rewrite Ht in Hlen. rewrite Forall_singleton in Hlen.
    destruct t as [|w [|w' rest]]; [done| |].
    + simpl. split; [|done]. left. split; [done|].
      change (status w ≠ "running").
      simpl in Hpending. by destruct Hpending as [Hw|Hw]; rewrite Hw.
    + simpl in Hpending. destruct Hpending as [Hw Hrest]. simpl. split.
      * right. eexists. by split_and!.
      * apply Forall_singleton. simpl in *. lia.
Qed.

Lemma run_tracks evs :
  slot_tracks_thread (run str evs) ∧
  Forall (λ t, length t ≤ 4) (threads (run str evs)).
Proof.
  unfold run. induction evs as [|ev evs IH] using rev_ind.
  - split; [by left|done].
  - rewrite foldl_app. simpl. destruct ev; simpl.
    + by apply start_pull_tracks.
    + by apply thread_step_tracks.
Qed.

(** A thread that is let run makes its assignments and ends. *)
Lemma thread_runs_out t : ∀ slot,
  pending t →
  ∃ final,
    foldl (handle str) (mkState slot [t]) (replicate (length t) (ThreadStep 0)) =
      mkState final [] ∧
    (status final = "success" ∨ status final = "error").
Proof.
  induction t as [|w rest IH]; intros slot Hpending; [done|].
  destruct rest as [|w' rest].
  - exists w. by split.
  - destruct Hpending as [_ Hrest].
    destruct (IH w Hrest) as (final & Hrun & Hfinal).
    exists final. split; [|done]. exact Hrun.
Qed.

(** The slot says [running] exactly while the thread of a pull lives. So a
    request is never turned down when there is no pull in progress; and a
    pull in progress is over once its thread has made the assignments it
    has left, four at most, after which the slot no longer says [running]
    and the next request is accepted. *)
Theorem pull_slot_says_running_while_thread_lives evs :
  let s := run str evs in
  (status (pull_status s) = "running" ↔ threads s ≠ []) ∧
  (threads s = [] →
   ∀ instance_id env, (start_pull str instance_id env s).1 = Started) ∧
  ∃ k, k ≤ 4 ∧
    let s' := run str (evs ++ replicate k (ThreadStep 0)) in
    threads s' = [] ∧
    status (pull_status s') ≠ "running" ∧
    ∀ instance_id env, (start_pull str instance_id env s').1 = Started.
Proof.
  intros s. destruct (run_tracks evs) as [Hs Hlen]. fold s in Hs, Hlen.
  assert (Hstart : ∀ s0, status (pull_status s0) ≠ "running" →
            ∀ instance_id env, (start_pull str instance_id env s0).1 = Started).
  { intros s0 Hidle instance_id env. unfold start_pull.
    apply String.eqb_neq in Hidle. by rewrite Hidle. }
  split_and!.
  - destruct Hs as [[Hnil Hidle]|(t & Ht & _ & Hr)].
    + rewrite Hnil. split; [done|by intros []].
    + rewrite Ht. by split.
  - intros Hnil. destruct Hs as [[_ Hidle]|(t & Ht & _)]; [by apply Hstart|].
    by rewrite Ht in Hnil.
  - destruct Hs as [[Hnil Hidle]|(t & Ht & Hpending & Hr)].
    + exists 0. split; [lia|]. simpl. rewrite app_nil_r. fold s.
      split_and!; [done|done|by apply Hstart].
    + exists (length t). rewrite Ht in Hlen. rewrite Forall_singleton in Hlen.
      split; [done|]. simpl. unfold run. rewrite foldl_app. fold (run str evs). fold s.
      destruct (thread_runs_out t (pull_status s) Hpending) as (final & Hrun & Hfinal).
      assert (s = mkState (pull_status s) [t]) as -> by (destruct s; simpl in *; by subst).
      simpl. rewrite Hrun. simpl.
      assert (status final ≠ "running") as Hidle by (by destruct Hfinal as [-> | ->]).
      split_and!; [done|done|by apply Hstart].
Qed.

(** The last assignment of a pull says [success] exactly when the instance
    is found, the answer of the remote instance is a zip by its content
    type, the temporary file is written and [restore_data_from_zip] returns
    success; the message is then the one of the restore, with the advice to
    restart. A restore that returns a failure is an error. *)
Theorem run_pull_task_success_iff env instance_id :
  let statuses := _run_pull_task str env instance_id in
  (status <$> last statuses = Some "success" ↔
   (∃ inst, inst ∈ instances (env_db env) ∧ id inst = instance_id) ∧
   (∃ content_type, env_fetched env = Response content_type ∧
                    occurs_in "application/zip" content_type = true) ∧
   env_save_raises env = None ∧
   ∃ msg, env_restored env = inr (true, msg)) ∧
  (∀ msg, status <$> last statuses = Some "success" →
          env_restored env = inr (true, msg) →
          last statuses =
            Some (mkStatus "success"
                    (msg +:+ " It's recommended to restart the application to ensure changes are loaded."))).
Proof.
  intros statuses. unfold statuses, _run_pull_task.
  destruct (list_find _ _) as [[i instance]|] eqn:Hfind.
  - apply list_find_Some in Hfind as (Hi & Hid & _).
    assert (∃ inst, inst ∈ instances (env_db env) ∧ id inst = instance_id) as Hfound
      by (exists instance; split; [by eapply list_elem_of_lookup_2|done]).
    destruct (env_fetched env) as [e|content_type]; simpl.
    { split; [|done]. split; [done|]. by intros (_ & (? & ? & _) & _). }
    destruct (occurs_in "application/zip" content_type) eqn:Hzip; simpl.
    2:{ split; [|done]. split; [done|].
        intros (_ & (? & ? & Hz) & _). simplify_eq. congruence. }
    destruct (env_save_raises env) as [e|]; simpl.
    { split; [|done]. split; [done|]. by intros (_ & _ & ? & _). }
    destruct (env_restored env) as [e|[[] msg]]; simpl.
    + split; [|done]. split; [done|]. by intros (_ & _ & _ & ? & ?).
    + split.
      * split; [|done]. intros _. split_and!; eauto.
      * intros msg' _ ?. by simplify_eq.
    + split; [|done]. split; [done|]. by intros (_ & _ & _ & ? & ?).
  - apply list_find_None in Hfind. rewrite Forall_forall in Hfind. simpl.
    split; [|done]. split; [done|]. intros ((inst & Hin & Hid) & _).
    by destruct (Hfind inst Hin).
Qed.


End WithText.
End PullMore.

Module PullMoreExamples.
Import Fs Store Routes Pull PullRun PullMore Examples.


End PullMoreExamples.
(** ** More on the rooms *)

Module CollabMore.
Import Store Collab CollabFacts CollabRun.

Lemma dict_get_Some_elem {V} k (v : V) d : dict_get k d = Some v → (k, v) ∈ d.
Proof.
  induction d as [|[k' v'] d IH]; simpl; [done|].
  case_decide; intros ?; simplify_eq; apply elem_of_cons; auto.
Qed.

Lemma dict_get_set_ne {V} k k' (v : V) d :
  k ≠ k' → dict_get k' (dict_set k v d) = dict_get k' d.
Proof.
  intros Hne. induction d as [|[k0 v0] d IH]; simpl.
  - by rewrite decide_False.
  - destruct (decide (k = k0)) as [->|]; simpl.
    + by rewrite !decide_False.
    + case_decide; [done|]. apply IH.
Qed.

Lemma dict_set_id {V} k (v : V) d : dict_get k d = Some v → dict_set k v d = d.
Proof.
  induction d as [|[k' v'] d IH]; simpl; [done|].
  case_decide; intros ?; simplify_eq; [done|]. f_equal. by apply IH.
Qed.

Lemma dict_set_keys {V} k (v : V) d :
  is_Some (dict_get k d) → (dict_set k v d).*1 = d.*1.
Proof.
  induction d as [|[k' v'] d IH]; simpl; [by intros [? ?]|].
  case_decide; intros ?; simplify_eq; simpl; [done|]. f_equal. by apply IH.
Qed.

Lemma dict_set_keeps_keys {V} k k' (v : V) d : k' ∈ d.*1 → k' ∈ (dict_set k v d).*1.
Proof.
  induction d as [|[k0 v0] d IH]; simpl; [by rewrite elem_of_nil|].
  case_decide; simpl; rewrite !elem_of_cons; [naive_solver|].
  intros [->|Hin]; auto.
Qed.

Lemma dict_pop_set {V} k (v : V) d :
  dict_get k d = None → dict_pop k (dict_set k v d) = d.
Proof.
  unfold dict_pop. induction d as [|[k' v'] d IH]; simpl; intros Hget.
  - by rewrite filter_cons, decide_False by (simpl; auto).
  - case_decide; [done|]. simpl.
    rewrite filter_cons, decide_True by (simpl; congruence).
    f_equal. by apply IH.
Qed.

(** The first entry of [participants] with [sid], after [sid] was put in
    the room [room] and was in no room before. *)
Lemma find_after_set sid room (users : dict json) (d : dict (dict json)) :
  (∀ entry, entry ∈ d → dict_get sid entry.2 = None) →
  is_Some (dict_get sid users) →
  ∃ i, list_find (λ entry : string * dict json, is_Some (dict_get sid entry.2))
         (dict_set room users d) = Some (i, (room, users)) ∧
       ∀ users', <[i:=(room, users')]> (dict_set room users d) = dict_set room users' d.
Proof.
  intros Hno Hsome. induction d as [|[k' v'] d IH]; simpl.
  - exists 0. by rewrite decide_True.
  - case_decide; simpl.
    + exists 0. by rewrite decide_True.
    + rewrite decide_False.
      2:{ pose proof (Hno (k', v')) as Hhere. simpl in *.
          rewrite Hhere by (apply elem_of_cons; auto). by intros [? ?]. }
      destruct IH as (i & -> & Hins).
      { intros entry Hin. apply Hno, elem_of_cons. auto. }
      exists (S i). split; [done|]. intros users'. simpl. by rewrite Hins.
Qed.

Lemma handle_keeps_rooms str s ev room :
  room ∈ (participants s).*1 → room ∈ (participants (handle str s ev)).*1.
Proof.
  intros Hroom. destruct ev as [sid data|sid|sid data|sid data]; simpl.
  - unfold on_join.
    destruct (py_getitem data "room") as [r|]; simpl; [|done].
    destruct (py_getitem data "name") as [name|]; simpl; [|done].
    by apply dict_set_keeps_keys.
  - unfold on_disconnect.
    destruct (list_find _ _) as [[i [r users]]|] eqn:Hfind; simpl; [|done].
    apply list_find_Some in Hfind as (Hi & _).
    rewrite list_fmap_insert. simpl.
    by rewrite (list_insert_id _ i r) by (by rewrite list_lookup_fmap, Hi).
  - unfold on_update_scene. by destruct (py_getitem data "room").
  - unfold on_cursor_move. by destruct (py_getitem data "room").
Qed.

(** [participants] never loses a room: whatever events follow, a room that
    has an entry keeps one, also when the last connection has left it. A
    server on which one connection joined a room and went has that room in
    [participants], with no connection under it. *)
Theorem participants_never_loses_a_room str db :
  (∀ evs more room,
     room ∈ (participants (run str db evs)).*1 →
     room ∈ (participants (run str db (evs ++ more))).*1) ∧
  (∀ sid data room name,
     py_getitem data "room" = Some room →
     py_getitem data "name" = Some name →
     participants (run str db [Join sid data; Disconnect sid]) = [(str room, [])]).
Proof.
  split.
  - intros evs more room. unfold run. rewrite foldl_app.
    generalize (foldl (handle str) (fresh db) evs). intros s.
    revert s. induction more as [|ev more IH]; intros s Hroom; [done|].
    simpl. by apply IH, handle_keeps_rooms.
  - intros sid data room name Hroom Hname. unfold run. simpl.
    unfold on_join. rewrite Hroom, Hname. simpl.
    unfold on_disconnect. simpl.
    rewrite (decide_True (P:=sid = sid)) by done.
    rewrite decide_True by eauto. simpl.
    unfold dict_pop. by rewrite filter_cons, decide_False by (simpl; auto).
Qed.

Lemma participants_never_loses_a_room_witness :
  "5" ∈ (participants
           (run Examples.str_of empty_db
              ([Join "A" (JObj {["room" := JStr "5"; "name" := JStr "ann"]})] ++
               [Disconnect "A"]))).*1.
Proof.
  apply (proj1 (participants_never_loses_a_room Examples.str_of empty_db)).
  vm_compute. apply elem_of_cons. by left.
Defined.

Section WithStr.
Variable str : json → string.

(** A connection that is in no room, joins a room and disconnects leaves
    [participants] as it was when the room had an entry (and with an empty
    entry for the room when it had none), the store as it was, and the room
    of Socket.IO without it; the names sent at the disconnect are those of
    the room before the join. *)
Theorem join_then_disconnect_restores_room s sid data room name :
  py_getitem data "room" = Some room →
  py_getitem data "name" = Some name →
  (∀ entry, entry ∈ participants s → dict_get sid entry.2 = None) →
  let users := default [] (dict_get (str room) (participants s)) in
  ∃ s1 out,
    on_join str sid data s = Some (s1, out) ∧
    let r := on_disconnect sid s1 in
    participants r.1 = dict_set (str room) users (participants s) ∧
    (is_Some (dict_get (str room) (participants s)) →
     participants r.1 = participants s) ∧
    store r.1 = store s ∧
    members (str room) r.1 = members (str room) s ∖ {[sid]} ∧
    r.2 = [mkEmit "room_users" (JArr (dict_values users))
             (members (str room) s ∖ {[sid]})].
Proof.
  intros Hroom Hname Hno users. unfold on_join. rewrite Hroom, Hname. simpl.
  eexists _, _. split; [reflexivity|]. fold users.
  assert (dict_get sid users = None) as Hfree.
  { unfold users. destruct (dict_get (str room) (participants s)) as [u|] eqn:Hu; [|done].
    apply dict_get_Some_elem in Hu. by apply (Hno _ Hu). }
  destruct (find_after_set sid (str room) (dict_set sid name users) (participants s))
    as (i & Hfind & Hins); [done|by rewrite dict_get_set|].
  unfold on_disconnect. simpl. rewrite Hfind. simpl.
  rewrite Hins, dict_pop_set by done.
  assert (members (str room)
            (leave_room sid (str room)
               (mkServer (store s) (dict_set (str room) users (participants s))
                  (<[str room:={[sid]} ∪ members (str room) s]> (rooms s)))) =
          members (str room) s ∖ {[sid]}) as Hmembers.
  { rewrite members_leave_room. unfold members at 1. simpl.
    rewrite lookup_insert_eq. simpl. set_solver. }
  split_and!; try done.
  - intros [u Hu]. unfold users. rewrite Hu. simpl. by apply dict_set_id.
  - unfold emit. by rewrite Hmembers.
Qed.

(** A connection that joins a room it is in gets the new name: the room has
    the same connections as before, in the same order, this one under the
    new name and the others under theirs, and [participants] has the same
    rooms; the names sent are as many as before. *)
Theorem on_join_again_renames s sid data room name users old_name :
  py_getitem data "room" = Some room →
  py_getitem data "name" = Some name →
  dict_get (str room) (participants s) = Some users →
  dict_get sid users = Some old_name →
  ∃ s1 users1 to,
    on_join str sid data s =
      Some (s1, [mkEmit "room_users" (JArr (dict_values users1)) to]) ∧
    dict_get (str room) (participants s1) = Some users1 ∧
    users1.*1 = users.*1 ∧
    dict_get sid users1 = Some name ∧
    (∀ c, c ≠ sid → dict_get c users1 = dict_get c users) ∧
    (participants s1).*1 = (participants s).*1 ∧
    length (dict_values users1) = length users.
Proof.
  intros Hroom Hname Husers Hold. unfold on_join. rewrite Hroom, Hname. simpl.
  rewrite Husers. simpl.
  eexists _, (dict_set sid name users), _. split; [reflexivity|]. simpl.
  assert ((dict_set sid name users).*1 = users.*1) as Hkeys
    by (apply dict_set_keys; eauto).
  split_and!.
  - apply dict_get_set.
  - done.
  - apply dict_get_set.
  - intros c Hc. by apply dict_get_set_ne.
  - apply dict_set_keys. eauto.
  - unfold dict_values. rewrite length_fmap.
    apply (f_equal length) in Hkeys. by rewrite !length_fmap in Hkeys.
Qed.

End WithStr.
End CollabMore.

Module CollabMoreExamples.
Import Store Collab CollabFacts CollabRun CollabMore Examples.

Lemma join_then_disconnect_restores_room_witness :
  participants
    (on_disconnect "C"
       (from_option fst two_bobs
          (on_join str_of "C" (JObj {["room" := JStr "5"; "name" := JStr "cat"]})
             two_bobs))).1 =
  participants two_bobs.
Proof.
  assert (py_getitem (JObj {["room" := JStr "5"; "name" := JStr "cat"]}) "room" =
          Some (JStr "5")) as Hroom by reflexivity.
  assert (py_getitem (JObj {["room" := JStr "5"; "name" := JStr "cat"]}) "name" =
          Some (JStr "cat")) as Hname by reflexivity.
  assert (∀ entry, entry ∈ participants two_bobs → dict_get "C" entry.2 = None) as Hno.
  { intros entry Hin. unfold two_bobs in Hin. simpl in Hin.
    apply list_elem_of_singleton in Hin as ->. reflexivity. }
  destruct (join_then_disconnect_restores_room str_of two_bobs "C" _ _ _ Hroom Hname Hno)
    as (s1 & out & Hjoin & _ & Hsame & _).
  rewrite Hjoin. simpl. apply Hsame. by eexists.
Defined.

Lemma on_join_again_renames_witness :
  ∃ s1 users1 to,
    on_join str_of "A" (JObj {["room" := JStr "5"; "name" := JStr "ann"]}) two_bobs =
      Some (s1, [mkEmit "room_users" (JArr (dict_values users1)) to]) ∧
    dict_get "5" (participants s1) = Some users1 ∧
    users1.*1 = ["A"; "B"] ∧
    dict_get "A" users1 = Some (JStr "ann").
Proof.
  assert (py_getitem (JObj {["room" := JStr "5"; "name" := JStr "ann"]}) "room" =
          Some (JStr "5")) as Hroom by reflexivity.
  assert (py_getitem (JObj {["room" := JStr "5"; "name" := JStr "ann"]}) "name" =
          Some (JStr "ann")) as Hname by reflexivity.
  destruct (on_join_again_renames str_of two_bobs "A" _ (JStr "5") (JStr "ann")
              [("A", JStr "bob"); ("B", JStr "bob")] (JStr "bob") Hroom Hname
              eq_refl eq_refl)
    as (s1 & users1 & to & Hjoin & Hget & Hkeys & Hnew & _).
  exists s1, users1, to. by split_and!.
Defined.

End CollabMoreExamples.
